(** * iniparserpp: the INI reader of [src/iniConfig.cpp]

    A shallow embedding of [Config::loadFromFile] and [Config::get]
    together with the [std::string] operations they call, followed by the
    properties of the parser. *)

From Stdlib Require Import Ascii String Arith Bool Lia.
From stdpp Require Import gmap strings.

(** ** [std::string] operations used by the parser

    A [std::string] is a [string] of 8-bit characters; positions of type
    [size_t] are natural numbers and [std::string::npos] is [None]. *)

Module Str.

Definition size (s : string) : nat := String.length s.

Definition empty (s : string) : bool :=
  match s with EmptyString => true | String _ _ => false end.

(** [s[i]]; reading at [i = size s] gives the terminating NUL. *)
Definition at_ (s : string) (i : nat) : ascii :=
  match String.get i s with Some c => c | None => zero end.

Definition front (s : string) : ascii := at_ s 0.
Definition back (s : string) : ascii := at_ s (size s - 1).

Fixpoint drop (n : nat) (s : string) : string :=
  match n, s with
  | S n', String _ r => drop n' r
  | _, _ => s
  end.

Fixpoint take (n : nat) (s : string) : string :=
  match n, s with
  | S n', String c r => String c (take n' r)
  | _, _ => EmptyString
  end.

(** [s.substr(pos, len)]: at most [len] characters from [pos] on; [len =
    None] is the default argument [npos]. Every call of the parser has
    [pos <= size s] (lemmas [trim_substr_in_range] and
    [parse_line_substr_in_range]), so [std::out_of_range] is never
    thrown. *)
Definition substr (s : string) (pos : nat) (len : option nat) : string :=
  match len with
  | Some n => take n (drop pos s)
  | None => drop pos s
  end.

(** [s.find(c)]: the position of the first [c], or [npos]. *)
Fixpoint find (s : string) (c : ascii) : option nat :=
  match s with
  | EmptyString => None
  | String x r => if Ascii.eqb x c then Some 0 else S <$> find r c
  end.

End Str.

(** [std::isspace] in the "C" locale: space, and [\t \n \v \f \r]. *)
Definition isspace (c : ascii) : bool :=
  let n := nat_of_ascii c in
  Nat.eqb n 32 || (Nat.leb 9 n && Nat.leb n 13).

(** ** [trim] *)

(** First loop of [trim]: [while (b < e && isspace(s[b])) ++b;]. The
    argument [n] is the distance [e - b], so that [b < e] reads [n <> 0]. *)
Fixpoint trim_advance (s : string) (n b : nat) : nat :=
  match n with
  | 0 => b
  | S n' => if isspace (Str.at_ s b) then trim_advance s n' (S b) else b
  end.

(** Second loop: [while (e > b && isspace(s[e - 1])) --e;], again with
    [n = e - b]. *)
Fixpoint trim_retreat (s : string) (n e : nat) : nat :=
  match n with
  | 0 => e
  | S n' => if isspace (Str.at_ s (e - 1)) then trim_retreat s n' (e - 1) else e
  end.

Definition trim (s : string) : string :=
  let e := Str.size s in
  let b := trim_advance s e 0 in
  let e := trim_retreat s (e - b) e in
  Str.substr s b (Some (e - b)).

(** ** The store and the parser *)

(** [data_]: section name to (key to value). *)
Record Config := mkConfig { data_ : gmap string (gmap string string) }.

(** [std::getline] over the whole stream: the characters up to the next
    newline (which is consumed and not stored), or up to the end of the
    stream; reading fails, and the loop ends, when the stream is at its end
    and no character was extracted. [line] is the line read so far. *)
Fixpoint getlines_from (line : string) (stream : string) : list string :=
  match stream with
  | EmptyString => if Str.empty line then [] else [line]
  | String c rest =>
      if Ascii.eqb c "010"%char then line :: getlines_from EmptyString rest
      else getlines_from (line +:+ String c EmptyString) rest
  end.

Definition getlines (stream : string) : list string :=
  getlines_from EmptyString stream.

(** The loop over [{';', '#'}] that finds the earliest comment character:
    one iteration, then all of them. *)
Definition comment_pos_step (val : string) (cpos : option nat) (c : ascii)
  : option nat :=
  match Str.find val c with
  | Some p =>
      match cpos with
      | None => Some p
      | Some q => Some (Nat.min q p)
      end
  | None => cpos
  end.

Definition comment_pos (val : string) : option nat :=
  fold_left (comment_pos_step val) [";"%char; "#"%char] None.

(** [data_[current_section][key] = val]: [operator[]] creates the section
    when it is absent, then the key is inserted or overwritten. *)
Definition store (d : gmap string (gmap string string))
    (current_section key val : string) : gmap string (gmap string string) :=
  <[current_section := <[key := val]> (default ∅ (d !! current_section))]> d.

(** The state of the loop: [data_] and [current_section]. ([lineno] is only
    incremented, never read.) *)
Definition parser_state : Type := gmap string (gmap string string) * string.

(** One iteration of the [while (std::getline(ifs, line))] loop. *)
Definition parse_line (st : parser_state) (line : string) : parser_state :=
  let '(d, current_section) := st in
  let s := trim line in
  if Str.empty s then st
  else if Ascii.eqb (Str.at_ s 0) ";"%char || Ascii.eqb (Str.at_ s 0) "#"%char then st
  else if Ascii.eqb (Str.front s) "["%char && Ascii.eqb (Str.back s) "]"%char then
    (d, trim (Str.substr s 1 (Some (Str.size s - 2))))
  else
    match Str.find s "="%char with
    | None => st
    | Some eq =>
        let key := trim (Str.substr s 0 (Some eq)) in
        let val := trim (Str.substr s (eq + 1) None) in
        let val :=
          match comment_pos val with
          | Some cpos => trim (Str.substr val 0 (Some cpos))
          | None => val
          end in
        (store d current_section key val, current_section)
    end.

Definition parse_lines (st : parser_state) (lines : list string) : parser_state :=
  fold_left parse_line lines st.

(** The files that can be opened, with their contents. *)
Definition filesystem : Type := string → option string.

(** [Config::loadFromFile(path, err)]: the returned flag, [err] and the
    store afterwards. [data_.clear()] comes first, so nothing of the store
    [c] it is called on is read; [err] is written on failure only. *)
Definition loadFromFile (fs : filesystem) (path err : string) (c : Config)
  : bool * string * Config :=
  let d : gmap string (gmap string string) := ∅ in
  match fs path with
  | None => (false, "Could not open config file: " +:+ path, mkConfig d)
  | Some content =>
      (true, err, mkConfig (fst (parse_lines (d, EmptyString) (getlines content))))
  end.

(** [Config::get(section, key, default_val)]. *)
Definition get (c : Config) (section key default_val : string) : string :=
  match data_ c !! section with
  | None => default_val
  | Some sit =>
      match sit !! key with
      | None => default_val
      | Some kit => kit
      end
  end.

(** ** The words of the specification

    Line classification as the specification phrases it, on the trimmed
    line; these are compared with what [parse_line] computes. *)

Definition starts_with (c : ascii) (s : string) : bool :=
  match s with
  | EmptyString => false
  | String x _ => Ascii.eqb x c
  end.

Fixpoint ends_with (c : ascii) (s : string) : bool :=
  match s with
  | EmptyString => false
  | String x EmptyString => Ascii.eqb x c
  | String _ r => ends_with c r
  end.

Fixpoint occurs (c : ascii) (s : string) : bool :=
  match s with
  | EmptyString => false
  | String x r => Ascii.eqb x c || occurs c r
  end.

(** Nothing but whitespace. *)
Fixpoint all_space (s : string) : bool :=
  match s with
  | EmptyString => true
  | String x r => isspace x && all_space r
  end.

Definition is_comment_line (s : string) : bool :=
  starts_with ";" s || starts_with "#" s.

Definition is_header (s : string) : bool :=
  starts_with "[" s && ends_with "]" s.

(** A non-empty, non-comment, non-header line without ['=']. *)
Definition malformed (s : string) : bool :=
  negb (Str.empty s) && negb (is_comment_line s) && negb (is_header s)
  && negb (occurs "=" s).

(** [s] is a [key=value] line whose first ['='] separates [a] from [b]. *)
Definition key_value_line (s a b : string) : Prop :=
  Str.empty s = false ∧ is_comment_line s = false ∧ is_header s = false ∧
  s = a +:+ String "=" b ∧ occurs "=" a = false.

(** The part of a value before its first [';'] or ['#'], if it has one. *)
Fixpoint before_comment (v : string) : option string :=
  match v with
  | EmptyString => None
  | String x r =>
      if Ascii.eqb x ";" || Ascii.eqb x "#" then Some EmptyString
      else String x <$> before_comment r
  end.

(** Inline comment stripping: truncate at the first comment character and
    trim again. *)
Definition strip_comment (v : string) : string :=
  match before_comment v with
  | Some p => trim p
  | None => v
  end.

(** [frag] is a contiguous part of [s]. *)
Definition fragment (frag s : string) : Prop :=
  ∃ a b, s = a +:+ frag +:+ b.

(** The pair [(section, key)] is present in the store, with value [v]. *)
Definition stored (c : Config) (section key v : string) : Prop :=
  ∃ m, data_ c !! section = Some m ∧ m !! key = Some v.

(** The two [find] calls of [get] in one lookup. *)
Definition lookup2 (d : gmap string (gmap string string))
    (section key : string) : option string :=
  d !! section ≫= λ m, m !! key.

Definition nl : string := String "010" EmptyString.

(** A file that sets [k] in three sections, twice in [[s]]. *)
Definition duplicates_ini : string :=
  "k=1" +:+ nl +:+ "[s]" +:+ nl +:+ "k=2" +:+ nl +:+ "k = 3 # last" +:+ nl
  +:+ "[t]" +:+ nl +:+ "k=4".

(** A file system with one readable file, and the store after loading it
    into a new [Config]. *)
Definition one_file (name content : string) : filesystem :=
  fun path => if String.eqb path name then Some content else None.

Definition loaded (content : string) : Config :=
  snd (loadFromFile (one_file "f.ini" content) "f.ini" "" (mkConfig ∅)).

(** ** Words for the further properties *)

(** [s] without its leading whitespace. *)
Fixpoint lstrip (s : string) : string :=
  match s with
  | EmptyString => EmptyString
  | String x r => if isspace x then lstrip r else s
  end.

(** [s] without its trailing whitespace. *)
Fixpoint rstrip (s : string) : string :=
  match s with
  | EmptyString => EmptyString
  | String x r =>
      let r' := rstrip r in
      if Str.empty r' && isspace x then EmptyString else String x r'
  end.

(** Empty, or with a character other than whitespace at both ends. *)
Definition tight (t : string) : bool :=
  Str.empty t
  || (negb (isspace (Str.front t)) && negb (isspace (Str.back t))).

(** The text of a file whose lines are [lines], without a newline after the
    last one. *)
Fixpoint join_lines (lines : list string) : string :=
  match lines with
  | [] => EmptyString
  | l :: rest =>
      match rest with
      | [] => l
      | _ :: _ => l +:+ nl +:+ join_lines rest
      end
  end.

(** What a store can hold after a load: names and values in trimmed form,
    no ['='] in a key, no comment character in a value. *)
Definition well_formed_entry (section key v : string) : Prop :=
  trim section = section ∧ trim key = key ∧ occurs "=" key = false ∧
  trim v = v ∧ occurs ";" v = false ∧ occurs "#" v = false.

(** A line that is blank, a comment or malformed once trimmed. *)
Definition inert (line : string) : bool :=
  Str.empty (trim line) || is_comment_line (trim line) || malformed (trim line).

(** What the loop keeps true of its state: the current section is trimmed,
    no section of the store is empty, every entry is well formed. *)
Definition entries_well_formed (st : parser_state) : Prop :=
  trim (snd st) = snd st ∧
  (∀ sec m, fst st !! sec = Some m → m ≠ ∅) ∧
  ∀ sec k v, lookup2 (fst st) sec k = Some v → well_formed_entry sec k v.

(** ** Strings *)

Section string_facts.
Implicit Types (s a b : string) (c x : ascii) (n : nat).

Lemma size_app a b : Str.size (a +:+ b) = Str.size a + Str.size b.
Proof. induction a as [|x a IH]; simpl; [done | by rewrite IH]. Qed.

Lemma drop_app_size a b : Str.drop (Str.size a) (a +:+ b) = b.
Proof. induction a as [|x a IH]; simpl; [by destruct b | done]. Qed.

Lemma drop_past_char a c b : Str.drop (Str.size a + 1) (a +:+ String c b) = b.
Proof. induction a as [|x a IH]; simpl; [by destruct b | done]. Qed.

Lemma take_app_size a b : Str.take (Str.size a) (a +:+ b) = a.
Proof.
  induction a as [|x a IH]; simpl; [by destruct b | by rewrite IH].
Qed.

Lemma app_empty_r s : s +:+ EmptyString = s.
Proof.
  induction s as [|x s IH]; [done |].
  change (String x (s +:+ EmptyString) = String x s). by rewrite IH.
Qed.

Lemma drop_0 s : Str.drop 0 s = s.
Proof. by destruct s. Qed.

Lemma take_drop n s : Str.take n s +:+ Str.drop n s = s.
Proof.
  revert s; induction n as [|n IH]; intros [|x s]; try done.
  change (String x (Str.take n s +:+ Str.drop n s) = String x s).
  by rewrite IH.
Qed.

Lemma size_take n s : n ≤ Str.size s → Str.size (Str.take n s) = n.
Proof.
  revert s; induction n as [|n IH]; intros [|x s]; simpl; try done; try lia.
  intros H. rewrite IH; lia.
Qed.

Lemma find_None_occurs s c : Str.find s c = None ↔ occurs c s = false.
Proof.
  induction s as [|x s IH]; simpl; [done |].
  destruct (Ascii.eqb x c); simpl; [split; discriminate |].
  rewrite <- IH. destruct (Str.find s c); simpl; split; congruence.
Qed.

Lemma find_lt s c n : Str.find s c = Some n → n < Str.size s.
Proof.
  revert n; induction s as [|x s IH]; simpl; intros n; [done |].
  destruct (Ascii.eqb x c); [intros [= <-]; lia |].
  destruct (Str.find s c) as [m|]; simpl; [|done].
  intros [= <-]. specialize (IH m eq_refl). lia.
Qed.

Lemma find_app a b c :
  occurs c a = false → Str.find (a +:+ String c b) c = Some (Str.size a).
Proof.
  induction a as [|x a IH]; simpl.
  - by rewrite Ascii.eqb_refl.
  - intros [Hx Ha]%orb_false_iff. by rewrite Hx, IH.
Qed.

Lemma find_split s c n :
  Str.find s c = Some n →
  s = Str.take n s +:+ String c (Str.drop (S n) s) ∧
  occurs c (Str.take n s) = false.
Proof.
  revert n; induction s as [|x s IH]; simpl; intros n; [done |].
  destruct (Ascii.eqb x c) eqn:Hx.
  - intros [= <-]. apply Ascii.eqb_eq in Hx as ->. by destruct s.
  - destruct (Str.find s c) as [m|]; simpl; [|done].
    intros [= <-]. destruct (IH m eq_refl) as [Hs Ho]. split.
    + change (String x s
              = String x (Str.take m s +:+ String c (Str.drop (S m) s))).
      by rewrite <- Hs.
    + simpl. by rewrite Hx, Ho.
Qed.

Lemma at_0_starts_with s c :
  Str.empty s = false → Ascii.eqb (Str.at_ s 0) c = starts_with c s.
Proof. by destruct s. Qed.

Lemma back_ends_with s c :
  Str.empty s = false → Ascii.eqb (Str.back s) c = ends_with c s.
Proof.
  induction s as [|x s IH]; [done | intros _].
  destruct s as [|y s]; [done |].
  change (ends_with c (String x (String y s)))
    with (ends_with c (String y s)).
  rewrite <- IH by done. unfold Str.back. simpl. by rewrite Nat.sub_0_r.
Qed.

Lemma ends_with_split s c :
  ends_with c s = true → ∃ r, s = r +:+ String c EmptyString.
Proof.
  induction s as [|x s IH]; [done |].
  destruct s as [|y s].
  - simpl. intros ->%Ascii.eqb_eq. by exists EmptyString.
  - intros H. destruct (IH H) as [r ->]. by exists (String x r).
Qed.

Lemma ends_with_app r c : ends_with c (r +:+ String c EmptyString) = true.
Proof.
  induction r as [|x r IH]; simpl; [apply Ascii.eqb_refl |].
  rewrite IH. by destruct r.
Qed.

(** A line that starts with ['['] and ends with [']'] is [[body]]. *)
Lemma is_header_shape s :
  is_header s = true ↔
  ∃ body, s = String "[" (body +:+ String "]" EmptyString).
Proof.
  unfold is_header. split.
  - intros [Hs He]%andb_true_iff. destruct s as [|x s]; [done |].
    simpl in Hs. apply Ascii.eqb_eq in Hs as ->.
    destruct s as [|y s]; [done |].
    destruct (ends_with_split _ _ He) as [r Hr]. destruct r as [|z r].
    + discriminate Hr.
    + injection Hr as -> Hr. exists r. by rewrite <- Hr.
  - intros [body ->]. simpl starts_with.
    change (String "[" (body +:+ String "]" EmptyString))
      with (String "[" body +:+ String "]" EmptyString).
    by rewrite ends_with_app.
Qed.

Lemma substr_header body :
  let s := String "[" (body +:+ String "]" EmptyString) in
  2 ≤ Str.size s ∧ Str.substr s 1 (Some (Str.size s - 2)) = body.
Proof.
  simpl. rewrite size_app. simpl. split; [lia |].
  replace (Str.size body + 1 - 1) with (Str.size body) by lia.
  apply take_app_size.
Qed.

End string_facts.

(** ** The model on small inputs *)

Example trim_examples :
  trim "  a b  " = "a b" ∧ trim "   " = "" ∧ trim "x" = "x" ∧
  trim (String "009" "key " +:+ String "013" "") = "key".
Proof. by vm_compute. Qed.

Example getlines_examples :
  getlines "" = [] ∧ getlines nl = [""] ∧
  getlines ("a" +:+ nl) = ["a"] ∧
  getlines ("a" +:+ nl +:+ nl +:+ "b") = ["a"; ""; "b"].
Proof. by vm_compute. Qed.

Example comment_pos_examples :
  comment_pos "2 ; note # more" = Some 2 ∧
  comment_pos "v # c ; d" = Some 2 ∧
  comment_pos "y=z" = None.
Proof. by vm_compute. Qed.

Example parse_lines_example :
  parse_lines (∅, "") ["a=1"; "[s]"; "b = 2 ; note"]
  = ({[ "" := {[ "a" := "1" ]}; "s" := {[ "b" := "2" ]} ]}, "s").
Proof. by vm_compute. Qed.

(** ** [trim] stays inside the string *)

Lemma trim_advance_bounds s n b : b ≤ trim_advance s n b ≤ b + n.
Proof.
  revert b; induction n as [|n IH]; intros b; simpl; [lia |].
  destruct (isspace (Str.at_ s b)); [|lia].
  specialize (IH (S b)). lia.
Qed.

Lemma trim_retreat_bounds s n e : n ≤ e → e - n ≤ trim_retreat s n e ≤ e.
Proof.
  revert e; induction n as [|n IH]; intros e He; simpl; [lia |].
  destruct (isspace (Str.at_ s (e - 1))); [|lia].
  specialize (IH (e - 1)). lia.
Qed.

(** The arguments of the [substr] call in [trim]: [b <= e <= size s]. *)
Lemma trim_substr_in_range s :
  let b := trim_advance s (Str.size s) 0 in
  let e := trim_retreat s (Str.size s - b) (Str.size s) in
  b ≤ e ∧ e ≤ Str.size s.
Proof.
  intros b e.
  pose proof (trim_advance_bounds s (Str.size s) 0) as Hb.
  pose proof (trim_retreat_bounds s (Str.size s - b) (Str.size s)) as He.
  fold b in Hb. fold e in He. lia.
Qed.

Lemma trim_empty : trim EmptyString = EmptyString.
Proof. reflexivity. Qed.

(** ** [trim] removes the whitespace at both ends, and nothing else *)

Section trim_facts.
Implicit Types (s : string) (x : ascii) (n b e i k : nat).

Lemma at_cons_S x s i : Str.at_ (String x s) (S i) = Str.at_ s i.
Proof. done. Qed.

Lemma size_drop b s : Str.size (Str.drop b s) = Str.size s - b.
Proof. revert s; induction b as [|b IH]; intros [|x s]; simpl; try done. Qed.

Lemma at_take_drop s b k i :
  i < k → Str.at_ (Str.take k (Str.drop b s)) i = Str.at_ s (b + i).
Proof.
  revert s; induction b as [|b IH]; intros s Hi.
  - rewrite drop_0. simpl. revert s i Hi.
    induction k as [|k IHk]; intros [|x s] [|i] Hi; simpl; try done; try lia.
    rewrite !at_cons_S. apply IHk. lia.
  - destruct s as [|x s]; simpl.
    + by destruct k.
    + rewrite at_cons_S. by apply IH.
Qed.

Lemma trim_advance_spaces s n b i :
  b ≤ i < trim_advance s n b → isspace (Str.at_ s i) = true.
Proof.
  revert b; induction n as [|n IH]; intros b Hi; simpl in Hi; [lia |].
  destruct (isspace (Str.at_ s b)) eqn:Hb; [|lia].
  destruct (decide (i = b)) as [->|Hne]; [done |].
  apply (IH (S b)). lia.
Qed.

Lemma trim_advance_stop s n b :
  trim_advance s n b < b + n →
  isspace (Str.at_ s (trim_advance s n b)) = false.
Proof.
  revert b; induction n as [|n IH]; intros b Hlt; simpl in *; [lia |].
  destruct (isspace (Str.at_ s b)) eqn:Hb; [|done].
  apply IH. lia.
Qed.

Lemma trim_retreat_spaces s n e i :
  n ≤ e → trim_retreat s n e ≤ i < e → isspace (Str.at_ s i) = true.
Proof.
  revert e; induction n as [|n IH]; intros e He Hi; simpl in Hi; [lia |].
  destruct (isspace (Str.at_ s (e - 1))) eqn:Hs; [|lia].
  destruct (decide (i = e - 1)) as [->|Hne]; [done |].
  apply (IH (e - 1)); lia.
Qed.

Lemma trim_retreat_stop s n e :
  n ≤ e → e - n < trim_retreat s n e →
  isspace (Str.at_ s (trim_retreat s n e - 1)) = false.
Proof.
  revert e; induction n as [|n IH]; intros e He Hlt; simpl in *; [lia |].
  destruct (isspace (Str.at_ s (e - 1))) eqn:Hs; [|done].
  apply IH; lia.
Qed.

Lemma all_space_whole s :
  (∀ i, i < Str.size s → isspace (Str.at_ s i) = true) → all_space s = true.
Proof.
  induction s as [|x s IH]; intros H; [done |].
  assert (isspace x = true) as Hx by (apply (H 0); simpl; lia).
  simpl. rewrite Hx, IH; [done |].
  intros i Hi. apply (H (S i)). simpl. lia.
Qed.

Lemma all_space_take s b :
  (∀ i, i < b → isspace (Str.at_ s i) = true) → b ≤ Str.size s →
  all_space (Str.take b s) = true.
Proof.
  intros H Hb. apply all_space_whole. intros i Hi.
  rewrite size_take in Hi by done.
  rewrite <- (drop_0 s), at_take_drop by done. by apply H.
Qed.

Lemma all_space_drop s e :
  (∀ i, e ≤ i < Str.size s → isspace (Str.at_ s i) = true) →
  all_space (Str.drop e s) = true.
Proof.
  revert s; induction e as [|e IH]; intros s H.
  - rewrite drop_0. apply all_space_whole. intros i Hi. apply H. lia.
  - destruct s as [|x s]; [done |]. simpl. apply IH.
    intros i Hi. rewrite <- at_cons_S with (x := x). apply H. simpl. lia.
Qed.

Lemma split_at_two s b e :
  b ≤ e →
  s = Str.take b s +:+ Str.take (e - b) (Str.drop b s) +:+ Str.drop e s.
Proof.
  revert s e; induction b as [|b IH]; intros s e Hbe.
  - rewrite drop_0, Nat.sub_0_r. simpl. by rewrite take_drop.
  - destruct s as [|x s].
    { assert (∀ k, Str.take k EmptyString = EmptyString) as Ht by by intros [].
      assert (∀ k, Str.drop k EmptyString = EmptyString) as Hd by by intros [].
      by rewrite !Hd, !Ht. }
    destruct e as [|e]; [lia |].
    change (String x s
            = String x (Str.take b s +:+ Str.take (e - b) (Str.drop b s)
                        +:+ Str.drop e s)).
    f_equal. apply IH. lia.
Qed.

(** [trim s] is [s] without a prefix and a suffix of whitespace, and it
    neither starts nor ends with whitespace. *)
Lemma trim_spec s :
  ∃ l r, s = l +:+ trim s +:+ r ∧
         all_space l = true ∧ all_space r = true ∧
         (Str.empty (trim s) = false →
          isspace (Str.front (trim s)) = false ∧
          isspace (Str.back (trim s)) = false).
Proof.
  unfold trim.
  pose proof (trim_substr_in_range s) as Hr. cbv zeta in Hr.
  set (b := trim_advance s (Str.size s) 0) in *.
  set (e := trim_retreat s (Str.size s - b) (Str.size s)) in *.
  destruct Hr as [Hbe Hes].
  exists (Str.take b s), (Str.drop e s). split; [|split; [|split]].
  - by apply split_at_two.
  - apply all_space_take; [|lia]. intros i Hi.
    apply (trim_advance_spaces s (Str.size s) 0). fold b. lia.
  - apply all_space_drop. intros i Hi.
    apply (trim_retreat_spaces s (Str.size s - b) (Str.size s)); [lia |].
    fold e. lia.
  - unfold Str.substr, Str.front, Str.back. intros Hne.
    assert (b < e) as Hlt.
    { destruct (decide (b < e)); [done |].
      replace (e - b) with 0 in Hne by lia. by destruct (Str.drop b s). }
    rewrite size_take by (rewrite size_drop; lia).
    rewrite !at_take_drop by lia.
    replace (b + 0) with b by lia. replace (b + (e - b - 1)) with (e - 1) by lia.
    split.
    + apply (trim_advance_stop s (Str.size s) 0). fold b. lia.
    + apply (trim_retreat_stop s (Str.size s - b) (Str.size s)); fold e; lia.
Qed.

End trim_facts.

(** ** The comment loop finds the first comment character *)

Lemma comment_pos_cons x r :
  comment_pos (String x r) =
  if Ascii.eqb x ";" || Ascii.eqb x "#" then Some 0 else S <$> comment_pos r.
Proof.
  unfold comment_pos, comment_pos_step. simpl.
  destruct (Ascii.eqb x ";") eqn:H1.
  - apply Ascii.eqb_eq in H1 as ->. simpl.
    by destruct (Str.find r "#").
  - destruct (Ascii.eqb x "#") eqn:H2; simpl.
    + by destruct (Str.find r ";").
    + destruct (Str.find r ";") as [p|], (Str.find r "#") as [q|]; simpl; done.
Qed.

Lemma before_comment_take v :
  before_comment v = (λ cpos, Str.take cpos v) <$> comment_pos v.
Proof.
  induction v as [|x r IH]; [done |].
  rewrite comment_pos_cons. simpl.
  destruct (Ascii.eqb x ";" || Ascii.eqb x "#"); [done |].
  rewrite IH. by destruct (comment_pos r).
Qed.

Lemma comment_pos_le v cpos : comment_pos v = Some cpos → cpos < Str.size v.
Proof.
  revert cpos; induction v as [|x r IH]; intros cpos; [done |].
  rewrite comment_pos_cons.
  destruct (Ascii.eqb x ";" || Ascii.eqb x "#"); [intros [= <-]; simpl; lia |].
  destruct (comment_pos r) as [p|]; [|done].
  intros [= <-]. specialize (IH p eq_refl). simpl. lia.
Qed.

(** What [parse_line] does to a value is [strip_comment]. *)
Lemma strip_comment_code v :
  match comment_pos v with
  | Some cpos => trim (Str.substr v 0 (Some cpos))
  | None => v
  end = strip_comment v.
Proof.
  unfold strip_comment. rewrite before_comment_take.
  by destruct (comment_pos v).
Qed.

(** ** One line *)

Section one_line.
Implicit Types (d : gmap string (gmap string string)).
Implicit Types (cur line s a b body : string).

(** The guards of the loop body, in the words of the specification. *)
Lemma parse_line_guards d cur line :
  parse_line (d, cur) line =
  let s := trim line in
  if Str.empty s then (d, cur)
  else if is_comment_line s then (d, cur)
  else if is_header s then
    (d, trim (Str.substr s 1 (Some (Str.size s - 2))))
  else
    match Str.find s "=" with
    | None => (d, cur)
    | Some eq =>
        (store d cur (trim (Str.substr s 0 (Some eq)))
           (strip_comment (trim (Str.substr s (eq + 1) None))), cur)
    end.
Proof.
  unfold parse_line. cbv zeta.
  destruct (Str.empty (trim line)) eqn:He; [done |].
  unfold Str.front, is_comment_line, is_header.
  rewrite !at_0_starts_with, back_ends_with by done.
  destruct (starts_with ";" (trim line) || starts_with "#" (trim line)); [done |].
  destruct (starts_with "[" (trim line) && ends_with "]" (trim line)); [done |].
  destruct (Str.find (trim line) "=") as [eq|]; [|done].
  by rewrite strip_comment_code.
Qed.

Lemma parse_line_blank d cur line :
  Str.empty (trim line) = true → parse_line (d, cur) line = (d, cur).
Proof. intros H. rewrite parse_line_guards. cbv zeta. by rewrite H. Qed.

Lemma parse_line_comment d cur line :
  is_comment_line (trim line) = true → parse_line (d, cur) line = (d, cur).
Proof.
  intros H. rewrite parse_line_guards. cbv zeta. rewrite H.
  by destruct (Str.empty (trim line)).
Qed.

Lemma header_not_comment s :
  is_header s = true → Str.empty s = false ∧ is_comment_line s = false.
Proof.
  intros [body ->]%is_header_shape. done.
Qed.

Lemma parse_line_header d cur line body :
  trim line = String "[" (body +:+ String "]" EmptyString) →
  parse_line (d, cur) line = (d, trim body).
Proof.
  intros Hs. rewrite parse_line_guards. cbv zeta.
  assert (is_header (trim line) = true) as Hh
    by (apply is_header_shape; eauto).
  destruct (header_not_comment _ Hh) as [-> ->]. rewrite Hh, Hs.
  by destruct (substr_header body) as [_ ->].
Qed.

Lemma parse_line_malformed d cur line :
  malformed (trim line) = true → parse_line (d, cur) line = (d, cur).
Proof.
  unfold malformed. intros H. rewrite parse_line_guards. cbv zeta.
  repeat (apply andb_true_iff in H as [H ?]).
  repeat match goal with
         | H : negb _ = true |- _ => apply negb_true_iff in H
         end.
  rewrite H.
  replace (is_comment_line (trim line)) with false by done.
  replace (is_header (trim line)) with false by done.
  assert (Str.find (trim line) "=" = None) as -> by by apply find_None_occurs.
  done.
Qed.

Lemma parse_line_key_value d cur line a b :
  key_value_line (trim line) a b →
  parse_line (d, cur) line =
  (store d cur (trim a) (strip_comment (trim b)), cur).
Proof.
  intros (He & Hc & Hh & Hs & Ha). rewrite parse_line_guards. cbv zeta.
  rewrite He, Hc, Hh, Hs, (find_app _ _ _ Ha). unfold Str.substr.
  by rewrite drop_0, take_app_size, drop_past_char.
Qed.

(** Every line either leaves [data_] alone or is a [key=value] line. *)
Lemma parse_line_cases d cur line :
  fst (parse_line (d, cur) line) = d ∨
  ∃ a b, key_value_line (trim line) a b ∧
         parse_line (d, cur) line =
         (store d cur (trim a) (strip_comment (trim b)), cur).
Proof.
  destruct (Str.empty (trim line)) eqn:He.
  { left. by rewrite parse_line_blank. }
  destruct (is_comment_line (trim line)) eqn:Hc.
  { left. by rewrite parse_line_comment. }
  destruct (is_header (trim line)) eqn:Hh.
  { left. apply is_header_shape in Hh as [body Hb].
    by rewrite (parse_line_header _ _ _ _ Hb). }
  destruct (Str.find (trim line) "=") as [eq|] eqn:Hf.
  - right. destruct (find_split _ _ _ Hf) as [Hs Ho].
    eexists _, _. split; [done |]. by apply parse_line_key_value.
  - left. rewrite parse_line_malformed; [done |].
    unfold malformed. rewrite He, Hc, Hh. simpl.
    by apply find_None_occurs in Hf as ->.
Qed.

(** Only a header changes [current_section]. *)
Lemma parse_line_section d cur line :
  is_header (trim line) = false → snd (parse_line (d, cur) line) = cur.
Proof.
  intros Hh. rewrite parse_line_guards. cbv zeta. rewrite Hh.
  destruct (Str.empty (trim line)), (is_comment_line (trim line)); try done.
  by destruct (Str.find (trim line) "=").
Qed.

(** The positions passed to [substr] in the loop body are in range, and
    [s.size() - 2] does not wrap around. *)
Lemma parse_line_substr_in_range s :
  (is_header s = true → 1 ≤ Str.size s ∧ 2 ≤ Str.size s) ∧
  (∀ eq, Str.find s "=" = Some eq → eq + 1 ≤ Str.size s).
Proof.
  split.
  - intros [body ->]%is_header_shape.
    destruct (substr_header body) as [H _]. simpl in *. lia.
  - intros eq H%find_lt. lia.
Qed.

End one_line.

(** ** The store *)

Section store_facts.
Implicit Types (d : gmap string (gmap string string)).
Implicit Types (c : Config) (sec cur key k v dflt : string).

Lemma get_lookup2 c sec key dflt :
  get c sec key dflt = default dflt (lookup2 (data_ c) sec key).
Proof.
  unfold get, lookup2. destruct (data_ c !! sec) as [m|]; simpl; [|done].
  by destruct (m !! key).
Qed.

Lemma stored_lookup2 c sec key v :
  stored c sec key v ↔ lookup2 (data_ c) sec key = Some v.
Proof.
  unfold stored, lookup2. split.
  - intros (m & -> & Hm). done.
  - destruct (data_ c !! sec) as [m|]; simpl; [eauto | done].
Qed.

Lemma lookup2_empty sec key : lookup2 ∅ sec key = None.
Proof. unfold lookup2. by rewrite lookup_empty. Qed.

Lemma lookup2_store_eq d cur k v : lookup2 (store d cur k v) cur k = Some v.
Proof.
  unfold lookup2, store. rewrite lookup_insert_eq. simpl.
  apply lookup_insert_eq.
Qed.

Lemma lookup2_store_ne d cur k v sec key :
  ¬ (sec = cur ∧ key = k) →
  lookup2 (store d cur k v) sec key = lookup2 d sec key.
Proof.
  intros Hne. unfold lookup2, store.
  destruct (decide (cur = sec)) as [->|Hs].
  - rewrite lookup_insert_eq. simpl.
    rewrite lookup_insert_ne by naive_solver.
    by destruct (d !! sec).
  - by rewrite lookup_insert_ne.
Qed.

Lemma get_store_eq d cur k v dflt : get (mkConfig (store d cur k v)) cur k dflt = v.
Proof. rewrite get_lookup2. simpl. by rewrite lookup2_store_eq. Qed.

End store_facts.

(** ** The whole loop *)

Section all_lines.
Implicit Types (d : gmap string (gmap string string)).
Implicit Types (st : parser_state) (lines pre post : list string).
Implicit Types (cur sec line k v a b : string).

Lemma parse_lines_app st pre post :
  parse_lines st (pre ++ post) = parse_lines (parse_lines st pre) post.
Proof. apply fold_left_app. Qed.

Lemma parse_lines_cons st line lines :
  parse_lines st (line :: lines) = parse_lines (parse_line st line) lines.
Proof. done. Qed.

Lemma parse_lines_snoc st pre line :
  parse_lines st (pre ++ [line]) = parse_line (parse_lines st pre) line.
Proof. by rewrite parse_lines_app. Qed.

(** Between two headers [current_section] does not move. *)
Lemma parse_lines_section st lines :
  Forall (λ line, is_header (trim line) = false) lines →
  snd (parse_lines st lines) = snd st.
Proof.
  intros H; revert st; induction H as [|line lines Hl _ IH]; intros st.
  - done.
  - rewrite parse_lines_cons, IH. destruct st as [d cur].
    by apply parse_line_section.
Qed.

(** Malformed lines can be deleted from the input. *)
Lemma parse_lines_skip_malformed st lines :
  parse_lines st lines =
  parse_lines st (filter (λ line, malformed (trim line) = false) lines).
Proof.
  revert st; induction lines as [|line lines IH]; intros st; [done |].
  rewrite filter_cons. destruct (decide (malformed (trim line) = false)) as [H|H].
  - by rewrite !parse_lines_cons, IH.
  - apply not_false_is_true in H. destruct st as [d cur].
    by rewrite parse_lines_cons, parse_line_malformed, IH.
Qed.

(** An entry survives as long as no later [key=value] line names the same
    key while the same section is current. *)
Lemma parse_lines_keeps st sec k v post :
  lookup2 (fst st) sec k = Some v →
  (∀ post1 line post2 a b,
      post = post1 ++ line :: post2 →
      key_value_line (trim line) a b → trim a = k →
      snd (parse_lines st post1) ≠ sec) →
  lookup2 (fst (parse_lines st post)) sec k = Some v.
Proof.
  revert st; induction post as [|line post IH]; intros st Hst Hno; [done |].
  rewrite parse_lines_cons. apply IH.
  - destruct st as [d cur].
    destruct (parse_line_cases d cur line) as [->|(a & b & Hkv & ->)]; [done |].
    simpl. rewrite lookup2_store_ne; [done |]. intros [Hs Hk].
    by apply (Hno [] line post a b).
  - intros post1 l post2 a b -> Hkv Hk.
    apply (Hno (line :: post1) l post2 a b); done.
Qed.

(** A key that no [key=value] line names is never stored. *)
Lemma parse_lines_absent st sec k lines :
  lookup2 (fst st) sec k = None →
  (∀ line a b, line ∈ lines → key_value_line (trim line) a b → trim a ≠ k) →
  lookup2 (fst (parse_lines st lines)) sec k = None.
Proof.
  revert st; induction lines as [|line lines IH]; intros st Hst Hno; [done |].
  rewrite parse_lines_cons. apply IH.
  - destruct st as [d cur].
    destruct (parse_line_cases d cur line) as [->|(a & b & Hkv & ->)]; [done |].
    simpl. rewrite lookup2_store_ne; [done |]. intros [_ Hk].
    apply (Hno line a b); [left | |]; done.
  - intros l a b Hl. apply Hno. by right.
Qed.

(** A pair that no [key=value] line sets while its section is current is
    never stored. *)
Lemma parse_lines_absent_in_section st sec k lines :
  lookup2 (fst st) sec k = None →
  (∀ pre line post a b,
      lines = pre ++ line :: post →
      key_value_line (trim line) a b → trim a = k →
      snd (parse_lines st pre) ≠ sec) →
  lookup2 (fst (parse_lines st lines)) sec k = None.
Proof.
  revert st; induction lines as [|line lines IH]; intros st Hst Hno; [done |].
  rewrite parse_lines_cons. apply IH.
  - destruct st as [d cur].
    destruct (parse_line_cases d cur line) as [->|(a & b & Hkv & ->)]; [done |].
    simpl. rewrite lookup2_store_ne; [done |]. intros [Hs Hk].
    by apply (Hno [] line lines a b).
  - intros pre l post a b -> Hkv Hk.
    apply (Hno (line :: pre) l post a b); done.
Qed.

End all_lines.

(** ** [loadFromFile] *)

Section load_facts.
Implicit Types (fs : filesystem) (c : Config).
Implicit Types (path err content : string).

Lemma loadFromFile_opened fs path err c content :
  fs path = Some content →
  loadFromFile fs path err c =
  (true, err, mkConfig (fst (parse_lines (∅, EmptyString) (getlines content)))).
Proof. unfold loadFromFile. by intros ->. Qed.

Lemma loadFromFile_not_opened fs path err c :
  fs path = None →
  loadFromFile fs path err c =
  (false, "Could not open config file: " +:+ path, mkConfig ∅).
Proof. unfold loadFromFile. by intros ->. Qed.

(** The store after a load is a function of what the path holds. *)
Lemma loadFromFile_store fs path err c :
  data_ (snd (loadFromFile fs path err c)) =
  match fs path with
  | Some content => fst (parse_lines (∅, EmptyString) (getlines content))
  | None => ∅
  end.
Proof. unfold loadFromFile. by destruct (fs path). Qed.

End load_facts.

(** ** Properties of the parser *)

(** C1: a line parsed as [key=value] (trimmed, non-empty, not a comment,
    not a bracketed header, containing ['=']) stores, in the current
    section, the trimmed text before the first ['='] as key and, as value,
    the trimmed text after the first ['='] (further ['='] kept) cut at the
    first [';'] or ['#'] and trimmed again; so does a load whose last line
    it is, and the file [x=y=z] gives [get("", "x") = "y=z"]. *)
Theorem key_value_line_stored
    (d : gmap string (gmap string string)) (cur line a b dflt : string) :
  key_value_line (trim line) a b →
  parse_line (d, cur) line
  = (store d cur (trim a) (strip_comment (trim b)), cur) ∧
  get (mkConfig (fst (parse_line (d, cur) line))) cur (trim a) dflt
  = strip_comment (trim b) ∧
  (∀ (fs : filesystem) path err c content pre,
      fs path = Some content → getlines content = pre ++ [line] →
      get (snd (loadFromFile fs path err c))
        (snd (parse_lines (∅, EmptyString) pre)) (trim a) dflt
      = strip_comment (trim b)) ∧
  get (loaded "x=y=z") "" "x" dflt = "y=z".
Proof.
  intros Hkv. pose proof (parse_line_key_value d cur line a b Hkv) as Hp.
  split; [done |]. split; [|split].
  - rewrite Hp. apply get_store_eq.
  - intros fs path err c content pre Hfs Hl.
    rewrite (loadFromFile_opened _ _ _ _ _ Hfs), Hl, parse_lines_snoc.
    destruct (parse_lines (∅, EmptyString) pre) as [d' cur'].
    rewrite (parse_line_key_value d' cur' line a b Hkv). apply get_store_eq.
  - by vm_compute.
Qed.

Lemma key_value_line_stored_witness :
  key_value_line (trim "b = 2 ; note") "b " " 2 ; note" ∧
  get (mkConfig (fst (parse_line (∅, "s") "b = 2 ; note"))) "s" "b" "" = "2".
Proof.
  assert (key_value_line (trim "b = 2 ; note") "b " " 2 ; note") as H
    by (repeat split).
  split; [exact H |].
  exact (proj1 (proj2 (key_value_line_stored ∅ "s" "b = 2 ; note"
                         "b " " 2 ; note" "" H))).
Defined.

(** C2: a trimmed line whose first character is ['['] and whose last is
    [']'] sets the current section to the trimmed text between the
    brackets; the section stays current over the following lines up to the
    next header, so a [key=value] line there is stored under it. The
    section is the empty string at the top of a file, and the file
    [a=1], [[s]], [b = 2 ; note] gives [get("", "a") = "1"] and
    [get("s", "b") = "2"]. *)
Theorem header_sets_section
    (d : gmap string (gmap string string))
    (cur hdr : string) (mid : list string) (line a b dflt : string) :
  is_header (trim hdr) = true →
  Forall (λ l, is_header (trim l) = false) mid →
  key_value_line (trim line) a b →
  (∃ body,
      trim hdr = String "[" (body +:+ String "]" EmptyString) ∧
      parse_line (d, cur) hdr = (d, trim body) ∧
      snd (parse_lines (d, cur) (hdr :: mid)) = trim body ∧
      get (mkConfig (fst (parse_lines (d, cur) (hdr :: mid ++ [line]))))
        (trim body) (trim a) dflt
      = strip_comment (trim b)) ∧
  (∀ (fs : filesystem) path err c content,
      fs path = Some content → getlines content = mid ++ [line] →
      get (snd (loadFromFile fs path err c)) "" (trim a) dflt
      = strip_comment (trim b)) ∧
  (let c := loaded ("a=1" +:+ nl +:+ "[s]" +:+ nl +:+ "b = 2 ; note" +:+ nl) in
   get c "" "a" dflt = "1" ∧ get c "s" "b" dflt = "2").
Proof.
  intros Hh Hmid Hkv. split; [|split].
  - apply is_header_shape in Hh as [body Hb]. exists body.
    pose proof (parse_line_header d cur hdr body Hb) as Hp.
    assert (snd (parse_lines (d, cur) (hdr :: mid)) = trim body) as Hs.
    { rewrite parse_lines_cons, Hp. by rewrite parse_lines_section. }
    repeat split; try done.
    rewrite app_comm_cons, parse_lines_snoc.
    destruct (parse_lines (d, cur) (hdr :: mid)) as [d' cur'].
    simpl in Hs. subst cur'.
    rewrite (parse_line_key_value d' _ line a b Hkv). apply get_store_eq.
  - intros fs path err c content Hfs Hl.
    rewrite (loadFromFile_opened _ _ _ _ _ Hfs), Hl, parse_lines_snoc.
    pose proof (parse_lines_section (∅, EmptyString) mid Hmid) as Hs.
    destruct (parse_lines (∅, EmptyString) mid) as [d' cur'].
    simpl in Hs. subst cur'.
    rewrite (parse_line_key_value d' _ line a b Hkv). apply get_store_eq.
  - by vm_compute.
Qed.

Lemma header_sets_section_witness :
  is_header (trim " [ s ] ") = true ∧
  Forall (λ l, is_header (trim l) = false) ["; note"; "a=1"] ∧
  key_value_line (trim "b = 2 ; note") "b " " 2 ; note" ∧
  ∃ body,
    trim " [ s ] " = String "[" (body +:+ String "]" EmptyString) ∧
    parse_line (∅, "") " [ s ] " = (∅, trim body) ∧
    snd (parse_lines (∅, "") [" [ s ] "; "; note"; "a=1"]) = trim body ∧
    get (mkConfig (fst (parse_lines (∅, "")
                          [" [ s ] "; "; note"; "a=1"; "b = 2 ; note"])))
      (trim body) "b" "" = "2".
Proof.
  assert (is_header (trim " [ s ] ") = true) as H1 by reflexivity.
  assert (Forall (λ l, is_header (trim l) = false) ["; note"; "a=1"]) as H2
    by (repeat constructor).
  assert (key_value_line (trim "b = 2 ; note") "b " " 2 ; note") as H3
    by (repeat split).
  split; [exact H1 |]. split; [exact H2 |]. split; [exact H3 |].
  exact (proj1 (header_sets_section ∅ "" " [ s ] " ["; note"; "a=1"]
                  "b = 2 ; note" "b " " 2 ; note" "" H1 H2 H3)).
Defined.

(** C3: when the source cannot be opened, [loadFromFile] returns [false],
    sets [err] to a message that contains the path and leaves the mapping
    empty, whatever the store held before: every [get] returns its
    default. *)
Theorem load_unopenable_source
    (fs : filesystem) (path err : string) (c : Config) :
  fs path = None →
  let '(ok, err', c') := loadFromFile fs path err c in
  ok = false ∧
  fragment path err' ∧
  data_ c' = ∅ ∧
  ∀ section key dflt, get c' section key dflt = dflt.
Proof.
  intros Hfs. rewrite (loadFromFile_not_opened _ _ _ _ Hfs).
  split; [done |]. split; [|split; [done |]].
  - exists "Could not open config file: ", EmptyString.
    by rewrite app_empty_r.
  - intros section key dflt. rewrite get_lookup2. simpl.
    by rewrite lookup2_empty.
Qed.

Lemma load_unopenable_source_witness :
  one_file "f.ini" "a=1" "missing.ini" = None ∧
  let '(ok, err', c') :=
    loadFromFile (one_file "f.ini" "a=1") "missing.ini" "" (loaded "a=1") in
  ok = false ∧
  fragment "missing.ini" err' ∧
  data_ c' = ∅ ∧
  ∀ section key dflt, get c' section key dflt = dflt.
Proof.
  split; [reflexivity |].
  exact (load_unopenable_source (one_file "f.ini" "a=1") "missing.ini" ""
           (loaded "a=1") eq_refl).
Defined.

(** C4, as stated, fails: in the file [k=v], [k] the second line is
    malformed and [k] is a fragment of it, yet [get("", "k", "d")] is
    ["v"], the value the first line stores. *)
Lemma fragment_of_malformed_line_counterexample :
  ¬ (∀ content line frag section dflt,
        line ∈ getlines content → malformed (trim line) = true →
        fragment frag line →
        get (loaded content) section frag dflt = dflt).
Proof.
  intros H.
  specialize (H ("k=v" +:+ nl +:+ "k") "k" "k" "" "d").
  assert (get (loaded ("k=v" +:+ nl +:+ "k")) "" "k" "d" = "d") as Hget.
  { apply H.
    - change (getlines ("k=v" +:+ nl +:+ "k")) with ["k=v"; "k"]. set_solver.
    - reflexivity.
    - by exists EmptyString, EmptyString. }
  vm_compute in Hget. discriminate Hget.
Qed.

(** C4, amended: a source that can be opened loads with success whatever it
    contains, and [err] is left alone; a malformed line (non-empty, not a
    comment, not a header, without ['=']) changes neither the store nor the
    current section, so the store is the one of the file without its
    malformed lines; and [get] on a fragment of a malformed line returns
    the default unless a [key=value] line of the file has that fragment as
    its key while the section asked for is the current one. *)
Theorem malformed_lines_skipped
    (fs : filesystem) (path err : string) (c : Config) (content : string) :
  fs path = Some content →
  let '(ok, err', c') := loadFromFile fs path err c in
  ok = true ∧ err' = err ∧
  (∀ st line, malformed (trim line) = true → parse_line st line = st) ∧
  data_ c' = fst (parse_lines (∅, EmptyString)
                    (filter (λ l, malformed (trim l) = false) (getlines content))) ∧
  (∀ bad frag section dflt,
      bad ∈ getlines content → malformed (trim bad) = true →
      fragment frag bad →
      (∀ pre line post a b,
          getlines content = pre ++ line :: post →
          key_value_line (trim line) a b → trim a = frag →
          snd (parse_lines (∅, EmptyString) pre) ≠ section) →
      get c' section frag dflt = dflt).
Proof.
  intros Hfs. rewrite (loadFromFile_opened _ _ _ _ _ Hfs).
  split; [done |]. split; [done |]. split; [|split].
  - intros [d cur] line. apply parse_line_malformed.
  - simpl. by rewrite <- parse_lines_skip_malformed.
  - intros bad frag section dflt _ _ _ Hno. rewrite get_lookup2. simpl.
    rewrite parse_lines_absent_in_section; [done | apply lookup2_empty | done].
Qed.

Lemma malformed_lines_skipped_witness :
  one_file "f.ini" ("[s]" +:+ nl +:+ "k=v" +:+ nl +:+ "[t]" +:+ nl +:+ "k") "f.ini"
  = Some ("[s]" +:+ nl +:+ "k=v" +:+ nl +:+ "[t]" +:+ nl +:+ "k") ∧
  get (snd (loadFromFile
              (one_file "f.ini"
                 ("[s]" +:+ nl +:+ "k=v" +:+ nl +:+ "[t]" +:+ nl +:+ "k"))
              "f.ini" "" (mkConfig ∅)))
    "t" "k" "d" = "d".
Proof.
  split; [reflexivity |].
  pose proof (malformed_lines_skipped
                (one_file "f.ini"
                   ("[s]" +:+ nl +:+ "k=v" +:+ nl +:+ "[t]" +:+ nl +:+ "k"))
                "f.ini" "" (mkConfig ∅)
                ("[s]" +:+ nl +:+ "k=v" +:+ nl +:+ "[t]" +:+ nl +:+ "k") eq_refl)
    as H.
  rewrite (loadFromFile_opened
             (one_file "f.ini"
                ("[s]" +:+ nl +:+ "k=v" +:+ nl +:+ "[t]" +:+ nl +:+ "k"))
             "f.ini" "" (mkConfig ∅)
             ("[s]" +:+ nl +:+ "k=v" +:+ nl +:+ "[t]" +:+ nl +:+ "k") eq_refl)
    in H.
  destruct H as (_ & _ & _ & _ & H).
  apply (H "k" "k").
  - change (getlines ("[s]" +:+ nl +:+ "k=v" +:+ nl +:+ "[t]" +:+ nl +:+ "k"))
      with ["[s]"; "k=v"; "[t]"; "k"].
    apply list_elem_of_In. simpl. tauto.
  - reflexivity.
  - by exists EmptyString, EmptyString.
  - change (getlines ("[s]" +:+ nl +:+ "k=v" +:+ nl +:+ "[t]" +:+ nl +:+ "k"))
      with ["[s]"; "k=v"; "[t]"; "k"].
    intros pre line post a b Hsplit Hkv Hk.
    destruct pre as [|x1 [|x2 [|x3 [|x4 pre]]]]; simpl in Hsplit; simplify_eq.
    + destruct Hkv as (_ & _ & Hh & _). vm_compute in Hh. discriminate Hh.
    + vm_compute. discriminate.
    + destruct Hkv as (_ & _ & Hh & _). vm_compute in Hh. discriminate Hh.
    + destruct Hkv as (_ & _ & _ & Hs & Ho).
      pose proof (find_app _ b _ Ho) as Hf. rewrite <- Hs in Hf.
      vm_compute in Hf. discriminate Hf.
    + by destruct pre.
Defined.

(** The first ['='] of a [key=value] line determines both sides. *)
Lemma key_value_line_inv s a b :
  key_value_line s a b →
  ∃ eq, Str.find s "=" = Some eq ∧ a = Str.take eq s ∧ b = Str.drop (eq + 1) s.
Proof.
  intros (_ & _ & _ & -> & Ha). exists (Str.size a).
  by rewrite (find_app _ _ _ Ha), take_app_size, drop_past_char.
Qed.

(** C5: when a (section, key) pair is set by several [key=value] lines of a
    file, the value after the load is that of the last of them: a line
    that sets the pair and is followed by no other line setting it decides
    the value. A store holds at most one value for a pair. *)
Theorem last_duplicate_wins
    (fs : filesystem) (path err : string) (c : Config) (content : string)
    (pre : list string) (line : string) (post : list string)
    (a b dflt : string) :
  fs path = Some content →
  getlines content = pre ++ line :: post →
  key_value_line (trim line) a b →
  (∀ post1 l post2 a' b',
      post = post1 ++ l :: post2 →
      key_value_line (trim l) a' b' → trim a' = trim a →
      snd (parse_lines (∅, EmptyString) (pre ++ line :: post1))
      ≠ snd (parse_lines (∅, EmptyString) pre)) →
  let c' := snd (loadFromFile fs path err c) in
  get c' (snd (parse_lines (∅, EmptyString) pre)) (trim a) dflt
  = strip_comment (trim b) ∧
  stored c' (snd (parse_lines (∅, EmptyString) pre)) (trim a)
    (strip_comment (trim b)) ∧
  (∀ (c0 : Config) section key v1 v2,
      stored c0 section key v1 → stored c0 section key v2 → v1 = v2).
Proof.
  intros Hfs Hl Hkv Hlast c'.
  assert (lookup2 (data_ c') (snd (parse_lines (∅, EmptyString) pre)) (trim a)
          = Some (strip_comment (trim b))) as Hlook.
  { subst c'. rewrite (loadFromFile_opened _ _ _ _ _ Hfs), Hl.
    cbn [snd data_]. rewrite parse_lines_app, parse_lines_cons.
    destruct (parse_lines (∅, EmptyString) pre) as [d cur] eqn:Hpre.
    pose proof (parse_line_key_value d cur line a b Hkv) as Hp.
    cbn [snd]. apply parse_lines_keeps.
    - rewrite Hp. apply lookup2_store_eq.
    - intros post1 l post2 a' b' Hpost Hkv' Hk.
      specialize (Hlast post1 l post2 a' b' Hpost Hkv' Hk).
      rewrite parse_lines_app, parse_lines_cons, Hpre in Hlast. done. }
  split; [|split].
  - by rewrite get_lookup2, Hlook.
  - by apply stored_lookup2.
  - intros c0 section key v1 v2 H1%stored_lookup2 H2%stored_lookup2. congruence.
Qed.

Lemma last_duplicate_wins_witness :
  get (loaded duplicates_ini) "s" "k" "" = "3" ∧
  get (loaded duplicates_ini) "" "k" "" = "1".
Proof.
  pose (content := duplicates_ini). split.
  - refine (proj1 (last_duplicate_wins (one_file "f.ini" content) "f.ini" ""
                     (mkConfig ∅) content ["k=1"; "[s]"; "k=2"]
                     "k = 3 # last" ["[t]"; "k=4"] "k " " 3 # last" ""
                     eq_refl eq_refl _ _)).
    + repeat split.
    + intros post1 l post2 a' b' Hpost Hkv Hk.
      destruct post1 as [|x1 [|x2 [|x3 post1]]]; simpl in Hpost; simplify_eq;
        first [ by destruct Hkv as (_ & _ & Hh & _) | by vm_compute ].
  - refine (proj1 (last_duplicate_wins (one_file "f.ini" content) "f.ini" ""
                     (mkConfig ∅) content [] "k=1"
                     ["[s]"; "k=2"; "k = 3 # last"; "[t]"; "k=4"] "k" "1" ""
                     eq_refl eq_refl _ _)).
    + repeat split.
    + intros post1 l post2 a' b' Hpost Hkv Hk.
      destruct post1 as [|x1 [|x2 [|x3 [|x4 [|x5 [|x6 post1]]]]]];
        simpl in Hpost; simplify_eq;
        first [ by destruct Hkv as (_ & _ & Hh & _) | by vm_compute ].
Defined.

(** C6: after [loadFromFile(A)] and then [loadFromFile(B)], whatever the
    store held at first, the store is the one a new [Config] has after
    [loadFromFile(B)] alone: every [get] answers from B's content, and a
    pair is present only if B sets it. *)
Theorem reload_replaces
    (fsA fsB : filesystem) (pathA pathB err : string) (c : Config) :
  let '(_, errA, cA) := loadFromFile fsA pathA err c in
  let cAB := snd (loadFromFile fsB pathB errA cA) in
  let cB := snd (loadFromFile fsB pathB "" (mkConfig ∅)) in
  cAB = cB ∧
  (∀ section key dflt, get cAB section key dflt = get cB section key dflt) ∧
  (∀ section key v, stored cAB section key v → stored cB section key v) ∧
  (∀ (fs : filesystem) path,
      fs path = fsB pathB →
      data_ (snd (loadFromFile fs path errA cA)) = data_ cAB).
Proof.
  destruct (loadFromFile fsA pathA err c) as [[okA errA] cA].
  assert (∀ fs path e e' c1 c2,
             fs path = fsB pathB →
             snd (loadFromFile fs path e c1) = snd (loadFromFile fsB pathB e' c2))
    as Hsame.
  { intros fs path e e' c1 c2 Hfs. unfold loadFromFile. rewrite Hfs.
    by destruct (fsB pathB). }
  cbv zeta. rewrite (Hsame fsB pathB errA "" cA (mkConfig ∅) eq_refl).
  repeat split; try done.
  intros fs path Hfs. by rewrite (Hsame fs path errA "" cA (mkConfig ∅) Hfs).
Qed.

(** C7: loading the same readable source twice in a row gives the store
    that loading it once gives; both loads succeed and every [get] has the
    same result. *)
Theorem load_twice_same
    (fs : filesystem) (path err : string) (c : Config) (content : string) :
  fs path = Some content →
  let '(ok1, err1, c1) := loadFromFile fs path err c in
  let '(ok2, err2, c2) := loadFromFile fs path err1 c1 in
  ok1 = true ∧ ok2 = true ∧ c2 = c1 ∧
  ∀ section key dflt, get c2 section key dflt = get c1 section key dflt.
Proof.
  intros Hfs. rewrite (loadFromFile_opened _ _ _ _ _ Hfs).
  by rewrite (loadFromFile_opened _ _ _ _ _ Hfs).
Qed.

Lemma load_twice_same_witness :
  one_file "f.ini" duplicates_ini "f.ini" = Some duplicates_ini ∧
  let '(ok1, err1, c1) :=
    loadFromFile (one_file "f.ini" duplicates_ini) "f.ini" "" (mkConfig ∅) in
  let '(ok2, err2, c2) :=
    loadFromFile (one_file "f.ini" duplicates_ini) "f.ini" err1 c1 in
  ok1 = true ∧ ok2 = true ∧ c2 = c1 ∧
  ∀ section key dflt, get c2 section key dflt = get c1 section key dflt.
Proof.
  split; [reflexivity |].
  exact (load_twice_same (one_file "f.ini" duplicates_ini) "f.ini" ""
           (mkConfig ∅) duplicates_ini eq_refl).
Defined.

(** C8: [get] returns the value stored for exactly the given section and
    key when there is one, and the default as it was given otherwise; a
    result other than the default is always a stored value. Names are
    compared as they are: with ["k"] stored in section ["s"], a padded or
    differently cased section or key finds nothing. [get] is a total
    function of the store, which it does not change (it has no store among
    its results, as the [const] method has none). *)
Theorem get_exact_lookup (c : Config) (section key dflt : string) :
  (∀ v, stored c section key v → get c section key dflt = v) ∧
  ((∀ v, ¬ stored c section key v) → get c section key dflt = dflt) ∧
  (get c section key dflt ≠ dflt → stored c section key (get c section key dflt)) ∧
  (let c0 := mkConfig {[ "s" := {[ "k" := "v" ]} ]} in
   get c0 "s" "k" dflt = "v" ∧
   get c0 " s" "k" dflt = dflt ∧ get c0 "S" "k" dflt = dflt ∧
   get c0 "s" "k " dflt = dflt ∧ get c0 "s" "K" dflt = dflt ∧
   get c0 "" "k" dflt = dflt ∧ get c0 "s" "" dflt = dflt).
Proof.
  split; [|split; [|split]].
  - intros v Hv%stored_lookup2. by rewrite get_lookup2, Hv.
  - intros Hno. rewrite get_lookup2.
    destruct (lookup2 (data_ c) section key) as [v|] eqn:Hv; [|done].
    by apply stored_lookup2, Hno in Hv.
  - intros Hne. apply stored_lookup2. rewrite get_lookup2 in Hne |- *.
    by destruct (lookup2 (data_ c) section key).
  - by vm_compute.
Qed.

(** C9: a line whose trimmed form starts with ['='] is a [key=value] line
    with the empty key: its value (the rest of the line, trimmed, without
    an inline comment) is stored under [""] in the current section and
    [get(section, "")] returns it; the line is not malformed. After
    [loadFromFile] of a file that has the line, [get] with the section
    current at the line and the key [""] returns that value, as long as no
    later line sets the empty key in the same section. The files [=v] and
    [[s]], [  = v] load to ["v"] under the empty key. *)
Theorem empty_key_stored
    (d : gmap string (gmap string string)) (cur line rest dflt : string) :
  trim line = String "=" rest →
  parse_line (d, cur) line = (store d cur "" (strip_comment (trim rest)), cur) ∧
  get (mkConfig (fst (parse_line (d, cur) line))) cur "" dflt
  = strip_comment (trim rest) ∧
  malformed (trim line) = false ∧
  get (mkConfig (fst (parse_line (d, cur) "=v"))) cur "" dflt = "v" ∧
  get (mkConfig (fst (parse_line (d, cur) "  = v"))) cur "" dflt = "v" ∧
  (∀ (fs : filesystem) path err c content pre post,
      fs path = Some content →
      getlines content = pre ++ line :: post →
      (∀ post1 l post2 a' b',
          post = post1 ++ l :: post2 →
          key_value_line (trim l) a' b' → trim a' = "" →
          snd (parse_lines (∅, EmptyString) (pre ++ line :: post1))
          ≠ snd (parse_lines (∅, EmptyString) pre)) →
      fst (fst (loadFromFile fs path err c)) = true ∧
      stored (snd (loadFromFile fs path err c))
        (snd (parse_lines (∅, EmptyString) pre)) "" (strip_comment (trim rest)) ∧
      get (snd (loadFromFile fs path err c))
        (snd (parse_lines (∅, EmptyString) pre)) "" dflt
      = strip_comment (trim rest)) ∧
  get (loaded "=v") "" "" dflt = "v" ∧
  get (loaded ("[s]" +:+ nl +:+ "  = v")) "s" "" dflt = "v".
Proof.
  intros Hs.
  assert (∀ d0 c0 l r, trim l = String "=" r →
                       parse_line (d0, c0) l
                       = (store d0 c0 "" (strip_comment (trim r)), c0)) as Hp.
  { intros d0 c0 l r Hl. rewrite <- trim_empty at 1.
    apply parse_line_key_value. by rewrite Hl. }
  split; [by apply Hp |]. split; [|split; [|split; [|split; [|split]]]].
  - rewrite (Hp d cur line rest Hs). apply get_store_eq.
  - by rewrite Hs.
  - rewrite (Hp d cur "=v" "v" eq_refl). apply get_store_eq.
  - rewrite (Hp d cur "  = v" " v" eq_refl). apply get_store_eq.
  - intros fs path err c content pre post Hfs Hl Hlast.
    assert (lookup2 (data_ (snd (loadFromFile fs path err c)))
              (snd (parse_lines (∅, EmptyString) pre)) ""
            = Some (strip_comment (trim rest))) as Hlook.
    { rewrite (loadFromFile_opened _ _ _ _ _ Hfs), Hl. cbn [snd data_].
      rewrite parse_lines_app, parse_lines_cons.
      destruct (parse_lines (∅, EmptyString) pre) as [d' cur'] eqn:Hpre.
      cbn [snd]. apply parse_lines_keeps.
      - rewrite (Hp d' cur' line rest Hs). apply lookup2_store_eq.
      - intros post1 l post2 a' b' Hpost Hkv' Hk.
        specialize (Hlast post1 l post2 a' b' Hpost Hkv' Hk).
        rewrite parse_lines_app, parse_lines_cons, Hpre in Hlast. done. }
    split; [by rewrite (loadFromFile_opened _ _ _ _ _ Hfs) |].
    split; [by apply stored_lookup2 |]. by rewrite get_lookup2, Hlook.
  - by vm_compute.
Qed.

Lemma empty_key_stored_witness :
  trim "  = v ; c" = String "=" " v ; c" ∧
  one_file "f.ini" ("[s]" +:+ nl +:+ "  = v ; c" +:+ nl +:+ "[t]") "f.ini"
  = Some ("[s]" +:+ nl +:+ "  = v ; c" +:+ nl +:+ "[t]") ∧
  get (snd (loadFromFile
              (one_file "f.ini" ("[s]" +:+ nl +:+ "  = v ; c" +:+ nl +:+ "[t]"))
              "f.ini" "" (mkConfig ∅))) "s" "" "d" = "v".
Proof.
  split; [reflexivity |]. split; [reflexivity |].
  refine (proj2 (proj2
    (proj1 (proj2 (proj2 (proj2 (proj2 (proj2
       (empty_key_stored ∅ "" "  = v ; c" " v ; c" "d" eq_refl))))))
       (one_file "f.ini" ("[s]" +:+ nl +:+ "  = v ; c" +:+ nl +:+ "[t]"))
       "f.ini" "" (mkConfig ∅)
       ("[s]" +:+ nl +:+ "  = v ; c" +:+ nl +:+ "[t]")
       ["[s]"] ["[t]"] eq_refl eq_refl _))).
  intros post1 l post2 a' b' Hpost Hkv Hk.
  destruct post1 as [|x1 post1]; simpl in Hpost; simplify_eq.
  - destruct Hkv as (_ & _ & Hh & _). vm_compute in Hh. discriminate Hh.
  - by destruct post1.
Defined.

(** C10: a trimmed line that starts with ['['], does not end with [']']
    and has no ['='] is skipped: neither the store nor the current section
    changes. So [[s] ; comment] opens no section, a key after it stays in
    the section that was current; and inside a header nothing is stripped:
    [[a;b]] opens the section ["a;b"]. *)
Theorem header_with_trailing_comment_skipped
    (d : gmap string (gmap string string)) (cur line dflt : string) :
  starts_with "[" (trim line) = true →
  ends_with "]" (trim line) = false →
  occurs "=" (trim line) = false →
  parse_line (d, cur) line = (d, cur) ∧
  parse_line (d, cur) "[s] ; comment" = (d, cur) ∧
  (let c := loaded ("[s] ; comment" +:+ nl +:+ "k=v") in
   get c "s" "k" dflt = dflt ∧ get c "" "k" dflt = "v") ∧
  (let c := loaded ("[a;b]" +:+ nl +:+ "k=v") in
   get c "a;b" "k" dflt = "v" ∧ get c "a" "k" dflt = dflt).
Proof.
  intros Hs He Ho.
  assert (∀ l, starts_with "[" (trim l) = true →
               ends_with "]" (trim l) = false →
               occurs "=" (trim l) = false →
               parse_line (d, cur) l = (d, cur)) as Hskip.
  { intros l H1 H2 H3. apply parse_line_malformed.
    unfold malformed, is_comment_line, is_header. rewrite H1, H2, H3.
    by destruct (trim l) as [|x s]; [|simpl in H1; apply Ascii.eqb_eq in H1 as ->]. }
  split; [by apply Hskip |]. split; [by apply Hskip |].
  by vm_compute.
Qed.

Lemma header_with_trailing_comment_skipped_witness :
  starts_with "[" (trim " [s] # c") = true ∧
  ends_with "]" (trim " [s] # c") = false ∧
  occurs "=" (trim " [s] # c") = false ∧
  parse_line (∅, "top") " [s] # c" = (∅, "top").
Proof.
  repeat (split; [reflexivity |]).
  exact (proj1 (header_with_trailing_comment_skipped ∅ "top" " [s] # c" ""
                  eq_refl eq_refl eq_refl)).
Defined.

(** * Further properties of [trim], [loadFromFile] and [get] *)

(** ** More on strings *)

#[local] Arguments isspace : simpl never.

Section more_string_facts.
Implicit Types (s a b c t l r : string) (x : ascii).

Lemma app_cons x a b : String x a +:+ b = String x (a +:+ b).
Proof. done. Qed.

Lemma app_assoc_str a b c : (a +:+ b) +:+ c = a +:+ (b +:+ c).
Proof.
  induction a as [|x a IH]; [done |]. rewrite !app_cons. by rewrite IH.
Qed.

Lemma all_space_app a b : all_space (a +:+ b) = all_space a && all_space b.
Proof.
  induction a as [|x a IH]; [done |]. rewrite app_cons. simpl.
  rewrite IH. by destruct (isspace x).
Qed.

Lemma occurs_app x a b : occurs x (a +:+ b) = occurs x a || occurs x b.
Proof.
  induction a as [|y a IH]; [done |]. rewrite app_cons. simpl.
  rewrite IH. by destruct (Ascii.eqb y x).
Qed.

Lemma empty_app a b : Str.empty (a +:+ b) = Str.empty a && Str.empty b.
Proof. by destruct a. Qed.

Lemma empty_true s : Str.empty s = true ↔ s = EmptyString.
Proof. by destruct s. Qed.

Lemma front_app t r : Str.empty t = false → Str.front (t +:+ r) = Str.front t.
Proof. by destruct t. Qed.

Lemma lstrip_app_space l t : all_space l = true → lstrip (l +:+ t) = lstrip t.
Proof.
  induction l as [|x l IH]; [done |]. rewrite app_cons. simpl.
  intros [-> Hl]%andb_true_iff. by apply IH.
Qed.

Lemma lstrip_all_space r : all_space r = true → lstrip r = EmptyString.
Proof.
  induction r as [|x r IH]; [done |]. simpl.
  intros [-> Hr]%andb_true_iff. by apply IH.
Qed.

Lemma lstrip_front t :
  Str.empty t = false → isspace (Str.front t) = false → lstrip t = t.
Proof.
  destruct t as [|x t]; [done |]. intros _ Hx.
  change (isspace x = false) in Hx. simpl. by rewrite Hx.
Qed.

Lemma rstrip_all_space r : all_space r = true → rstrip r = EmptyString.
Proof.
  induction r as [|x r IH]; [done |]. simpl.
  intros [-> Hr]%andb_true_iff. by rewrite IH.
Qed.

Lemma rstrip_app_space t r : all_space r = true → rstrip (t +:+ r) = rstrip t.
Proof.
  intros Hr. induction t as [|x t IH].
  - by apply rstrip_all_space.
  - rewrite app_cons. simpl. by rewrite IH.
Qed.

Lemma back_cons x y t : Str.back (String x (String y t)) = Str.back (String y t).
Proof. unfold Str.back. simpl. by rewrite Nat.sub_0_r. Qed.

Lemma rstrip_back t :
  Str.empty t = false → isspace (Str.back t) = false → rstrip t = t.
Proof.
  induction t as [|x t IH]; [done |]. intros _ Hb.
  destruct t as [|y t].
  - change (isspace x = false) in Hb. simpl. by rewrite Hb.
  - rewrite back_cons in Hb.
    change (rstrip (String x (String y t)))
      with (if Str.empty (rstrip (String y t)) && isspace x
            then EmptyString else String x (rstrip (String y t))).
    by rewrite IH.
Qed.

Lemma tight_cases t :
  tight t = true ↔
  t = EmptyString ∨
  (Str.empty t = false ∧ isspace (Str.front t) = false
   ∧ isspace (Str.back t) = false).
Proof.
  unfold tight. destruct t as [|x t]; [by split; [left |] |]. simpl.
  rewrite andb_true_iff, !negb_true_iff. split.
  - intros [H1 H2]. by right.
  - intros [H|(_ & H1 & H2)]; [discriminate H | done].
Qed.

(** The three parts of a line determine what [rstrip (lstrip _)] keeps. *)
Lemma strip_unique l t r :
  all_space l = true → all_space r = true → tight t = true →
  rstrip (lstrip (l +:+ t +:+ r)) = t.
Proof.
  intros Hl Hr [->|(Hne & Hf & Hb)]%tight_cases.
  - rewrite lstrip_app_space by done. simpl.
    by rewrite lstrip_all_space.
  - rewrite lstrip_app_space by done.
    rewrite lstrip_front; [| by rewrite empty_app, Hne | by rewrite front_app].
    rewrite rstrip_app_space by done. by apply rstrip_back.
Qed.

Lemma trim_tight s : tight (trim s) = true.
Proof.
  destruct (trim_spec s) as (l & r & _ & _ & _ & Ht). apply tight_cases.
  destruct (Str.empty (trim s)) eqn:He.
  - left. by apply empty_true.
  - right. by destruct (Ht eq_refl).
Qed.

(** The index loops of [trim] compute [rstrip (lstrip s)]. *)
Lemma trim_strip s : trim s = rstrip (lstrip s).
Proof.
  destruct (trim_spec s) as (l & r & Hs & Hl & Hr & _).
  rewrite Hs at 2. symmetry. apply strip_unique; try done. apply trim_tight.
Qed.

Lemma trim_unique l t r :
  all_space l = true → all_space r = true → tight t = true →
  trim (l +:+ t +:+ r) = t.
Proof. intros. rewrite trim_strip. by apply strip_unique. Qed.

Lemma trim_padding l s r :
  all_space l = true → all_space r = true → trim (l +:+ s +:+ r) = trim s.
Proof.
  intros Hl Hr. destruct (trim_spec s) as (l' & r' & Hs & Hl' & Hr' & _).
  rewrite Hs at 1.
  rewrite (app_assoc_str l' (trim s +:+ r') r), (app_assoc_str (trim s) r' r).
  rewrite <- (app_assoc_str l l').
  apply trim_unique; [| | apply trim_tight].
  - by rewrite all_space_app, Hl, Hl'.
  - by rewrite all_space_app, Hr, Hr'.
Qed.

Lemma trim_of_tight t : tight t = true → trim t = t.
Proof.
  intros Ht. rewrite <- (app_empty_r t) at 1.
  by apply (trim_unique EmptyString t EmptyString).
Qed.

Lemma trim_trim s : trim (trim s) = trim s.
Proof. apply trim_of_tight, trim_tight. Qed.

Lemma trim_all_space s : all_space s = true → trim s = EmptyString.
Proof.
  intros Hs. rewrite trim_strip. by rewrite lstrip_all_space.
Qed.

Lemma occurs_trim x s : occurs x (trim s) = true → occurs x s = true.
Proof.
  destruct (trim_spec s) as (l & r & Hs & _). intros H.
  rewrite Hs, !occurs_app, H. by destruct (occurs x l).
Qed.

Lemma occurs_trim_false x s : occurs x s = false → occurs x (trim s) = false.
Proof.
  intros H. destruct (occurs x (trim s)) eqn:Ht; [|done].
  apply occurs_trim in Ht. congruence.
Qed.

End more_string_facts.

(** ** [trim] *)

Lemma parse_line_trim_eq st line1 line2 :
  trim line1 = trim line2 → parse_line st line1 = parse_line st line2.
Proof. intros H. destruct st as [d cur]. unfold parse_line. by rewrite H. Qed.

Lemma trim_comment_start l x t :
  all_space l = true → isspace x = false →
  starts_with x (trim (l +:+ String x t)) = true.
Proof.
  intros Hl Hx. rewrite trim_strip, lstrip_app_space by done.
  change (lstrip (String x t)) with (if isspace x then lstrip t else String x t).
  rewrite Hx.
  change (rstrip (String x t))
    with (if Str.empty (rstrip t) && isspace x
          then EmptyString else String x (rstrip t)).
  rewrite Hx, andb_false_r. simpl. apply Ascii.eqb_refl.
Qed.

(** X1: [trim s] is [s] without a prefix and a suffix that are all
    whitespace; it is empty or has a character other than whitespace at
    both ends; it is the only such part of [s]; and the two index loops
    agree with stripping the string from the left, then from the right. *)
Theorem trim_removes_outer_whitespace (s : string) :
  (∃ l r, s = l +:+ trim s +:+ r ∧ all_space l = true ∧ all_space r = true) ∧
  tight (trim s) = true ∧
  trim s = rstrip (lstrip s) ∧
  (∀ l t r, s = l +:+ t +:+ r → all_space l = true → all_space r = true →
            tight t = true → t = trim s).
Proof.
  split; [|split; [|split]].
  - destruct (trim_spec s) as (l & r & Hs & Hl & Hr & _). by exists l, r.
  - apply trim_tight.
  - apply trim_strip.
  - intros l t r -> Hl Hr Ht. symmetry. by apply trim_unique.
Qed.

(** X2: trimming twice is trimming once. *)
Theorem trim_idempotent (s : string) : trim (trim s) = trim s.
Proof. apply trim_trim. Qed.

(** X3: the trimmed line is empty exactly when the line is all whitespace
    (or empty), and such a line changes neither the store nor the current
    section. *)
Theorem blank_line_iff_all_space (st : parser_state) (line : string) :
  (Str.empty (trim line) = true ↔ all_space line = true) ∧
  (all_space line = true → parse_line st line = st).
Proof.
  assert (all_space line = true → Str.empty (trim line) = true) as Hblank.
  { intros H. by rewrite trim_all_space. }
  split; [split; [|done] |].
  - intros He%empty_true. destruct (trim_spec line) as (l & r & Hs & Hl & Hr & _).
    rewrite Hs, He, !all_space_app, Hl, Hr. done.
  - intros H. destruct st as [d cur]. by apply parse_line_blank, Hblank.
Qed.

(** X4: whitespace around a line does not matter: indentation, trailing
    blanks and the carriage return of a CRLF line ending are trimmed away,
    and the line is parsed as without them. *)
Theorem padding_ignored (st : parser_state) (l line r : string) :
  all_space l = true → all_space r = true →
  trim (l +:+ line +:+ r) = trim line ∧
  parse_line st (l +:+ line +:+ r) = parse_line st line.
Proof.
  intros Hl Hr. pose proof (trim_padding l line r Hl Hr) as Ht.
  split; [done |]. by apply parse_line_trim_eq.
Qed.

Lemma padding_ignored_witness :
  all_space (String "009" " ") = true ∧
  all_space (String " " (String "013" "")) = true ∧
  parse_line (∅, "s") (String "009" " " +:+ "k = v" +:+ String " " (String "013" ""))
  = parse_line (∅, "s") "k = v".
Proof.
  split; [reflexivity |]. split; [reflexivity |].
  exact (proj2 (padding_ignored (∅, "s") (String "009" " ") "k = v"
                  (String " " (String "013" "")) eq_refl eq_refl)).
Defined.

(** X5: a line whose first character after the indentation is [';'] or
    ['#'] is ignored whatever follows, so putting a comment character in
    front of a line disables it. *)
Theorem commented_out_line_ignored (st : parser_state) (l t : string) :
  all_space l = true →
  parse_line st (l +:+ String ";" t) = st ∧
  parse_line st (l +:+ String "#" t) = st.
Proof.
  intros Hl. destruct st as [d cur].
  split; apply parse_line_comment; unfold is_comment_line.
  - by rewrite (trim_comment_start l ";" t Hl).
  - rewrite (trim_comment_start l "#" t Hl) by done. apply orb_true_r.
Qed.

Lemma commented_out_line_ignored_witness :
  all_space "  " = true ∧
  parse_line ({[ "s" := {[ "k" := "v" ]} ]}, "s") ("  " +:+ String ";" "k = w")
  = ({[ "s" := {[ "k" := "v" ]} ]}, "s").
Proof.
  split; [reflexivity |].
  exact (proj1 (commented_out_line_ignored ({[ "s" := {[ "k" := "v" ]} ]}, "s")
                  "  " "k = w" eq_refl)).
Defined.

(** ** What one line does to the store *)

Section line_effects.
Implicit Types (d : gmap string (gmap string string)).
Implicit Types (st : parser_state) (cur sec line key k v a b : string).

(** The three things a line can do. *)
Lemma parse_line_full_cases d cur line :
  parse_line (d, cur) line = (d, cur) ∨
  (∃ body, trim line = String "[" (body +:+ String "]" EmptyString) ∧
           parse_line (d, cur) line = (d, trim body)) ∨
  (∃ a b, key_value_line (trim line) a b ∧
          parse_line (d, cur) line =
          (store d cur (trim a) (strip_comment (trim b)), cur)).
Proof.
  destruct (is_header (trim line)) eqn:Hh.
  - right; left. apply is_header_shape in Hh as [body Hb]. exists body.
    split; [done |]. by apply parse_line_header.
  - destruct (parse_line_cases d cur line) as [Hd|Hkv]; [left | by right; right].
    pose proof (parse_line_section d cur line Hh) as Hs.
    destruct (parse_line (d, cur) line) as [d' cur']. simpl in *. congruence.
Qed.

Lemma key_value_line_key_unique s a b a' b' :
  key_value_line s a b → key_value_line s a' b' → a = a' ∧ b = b'.
Proof.
  intros (eq & Hf & -> & ->)%key_value_line_inv
         (eq' & Hf' & -> & ->)%key_value_line_inv.
  rewrite Hf in Hf'. by injection Hf' as ->.
Qed.

Lemma store_store_eq d cur k v : store (store d cur k v) cur k v = store d cur k v.
Proof.
  unfold store. rewrite lookup_insert_eq. simpl.
  by rewrite insert_insert_eq, insert_insert_eq.
Qed.

Lemma lookup2_store d cur k v sec key :
  lookup2 (store d cur k v) sec key =
  if decide (sec = cur ∧ key = k) then Some v else lookup2 d sec key.
Proof.
  destruct (decide (sec = cur ∧ key = k)) as [[-> ->]|Hne].
  - apply lookup2_store_eq.
  - by apply lookup2_store_ne.
Qed.

Lemma store_comm d cur k1 v1 k2 v2 :
  k1 ≠ k2 →
  store (store d cur k1 v1) cur k2 v2 = store (store d cur k2 v2) cur k1 v1.
Proof.
  intros Hne. unfold store. rewrite !lookup_insert_eq. simpl.
  rewrite !insert_insert_eq. f_equal. by apply insert_insert_ne.
Qed.

Lemma parse_line_keeps_present d cur line sec key :
  is_Some (lookup2 d sec key) →
  is_Some (lookup2 (fst (parse_line (d, cur) line)) sec key).
Proof.
  intros Hs.
  destruct (parse_line_cases d cur line) as [->|(a & b & _ & ->)]; [done |].
  simpl. rewrite lookup2_store. by case_decide.
Qed.

Lemma parse_lines_keeps_present st lines sec key :
  is_Some (lookup2 (fst st) sec key) →
  is_Some (lookup2 (fst (parse_lines st lines)) sec key).
Proof.
  revert st; induction lines as [|line lines IH]; intros st Hs; [done |].
  rewrite parse_lines_cons. apply IH. destruct st as [d cur].
  by apply parse_line_keeps_present.
Qed.

Lemma before_comment_none v :
  before_comment v = None → occurs ";" v = false ∧ occurs "#" v = false.
Proof.
  induction v as [|x v IH]; [done |]. simpl.
  destruct (Ascii.eqb x ";"), (Ascii.eqb x "#"); simpl; try done.
  destruct (before_comment v); [done |]. intros _. by apply IH.
Qed.

Lemma before_comment_some v p :
  before_comment v = Some p → occurs ";" p = false ∧ occurs "#" p = false.
Proof.
  revert p; induction v as [|x v IH]; intros p; [done |]. simpl.
  destruct (Ascii.eqb x ";") eqn:H1, (Ascii.eqb x "#") eqn:H2; simpl;
    try by intros [= <-].
  destruct (before_comment v) as [q|]; [|done]. simpl. intros [= <-].
  simpl. rewrite H1, H2. by apply IH.
Qed.

Lemma occurs_none_before_comment v :
  occurs ";" v = false → occurs "#" v = false → before_comment v = None.
Proof.
  induction v as [|x v IH]; [done |]. simpl.
  intros [-> H1]%orb_false_iff [-> H2]%orb_false_iff. simpl.
  by rewrite IH.
Qed.

(** A stripped value is trimmed and free of comment characters. *)
Lemma strip_comment_clean v :
  trim v = v →
  trim (strip_comment v) = strip_comment v ∧
  occurs ";" (strip_comment v) = false ∧ occurs "#" (strip_comment v) = false.
Proof.
  intros Hv. unfold strip_comment.
  destruct (before_comment v) as [p|] eqn:Hp.
  - destruct (before_comment_some _ _ Hp) as [H1 H2].
    split; [apply trim_trim |]. split; by apply occurs_trim_false.
  - destruct (before_comment_none _ Hp) as [H1 H2]. done.
Qed.

End line_effects.

(** X6: one line changes the answer of [get] for at most one pair. If
    [get] for (section, key) differs before and after a line, the line is
    a [key=value] line, the section is the current one, the key is the
    line's key and [get] now returns the line's value; sections opened
    again keep their keys. *)
Theorem line_changes_at_most_one_pair
    (d : gmap string (gmap string string)) (cur line section key dflt : string) :
  get (mkConfig (fst (parse_line (d, cur) line))) section key dflt
  ≠ get (mkConfig d) section key dflt →
  section = cur ∧
  ∃ a b, key_value_line (trim line) a b ∧ key = trim a ∧
         get (mkConfig (fst (parse_line (d, cur) line))) section key dflt
         = strip_comment (trim b).
Proof.
  intros Hne.
  destruct (parse_line_cases d cur line) as [Hd|(a & b & Hkv & Hp)].
  - by rewrite Hd in Hne.
  - assert (∀ d', get (mkConfig d') section key dflt
                  = default dflt (lookup2 d' section key)) as Hg
      by (intros d'; apply get_lookup2).
    rewrite Hp in Hne |- *. cbn [fst] in Hne |- *.
    rewrite !Hg in Hne. rewrite Hg. rewrite lookup2_store in Hne |- *.
    destruct (decide (section = cur ∧ key = trim a)) as [[-> ->]|]; [|done].
    split; [done |]. by exists a, b.
Qed.

Lemma line_changes_at_most_one_pair_witness :
  get (mkConfig (fst (parse_line ({[ "s" := {[ "k" := "old" ]} ]}, "s") "k = new")))
    "s" "k" ""
  ≠ get (mkConfig {[ "s" := {[ "k" := "old" ]} ]}) "s" "k" "" ∧
  "s" = "s" ∧
  ∃ a b, key_value_line (trim "k = new") a b ∧ "k" = trim a ∧
         get (mkConfig (fst (parse_line ({[ "s" := {[ "k" := "old" ]} ]}, "s")
                               "k = new"))) "s" "k" ""
         = strip_comment (trim b).
Proof.
  assert (get (mkConfig (fst (parse_line ({[ "s" := {[ "k" := "old" ]} ]}, "s")
                               "k = new"))) "s" "k" ""
          ≠ get (mkConfig {[ "s" := {[ "k" := "old" ]} ]}) "s" "k" "") as H
    by (vm_compute; discriminate).
  split; [exact H |].
  exact (line_changes_at_most_one_pair {[ "s" := {[ "k" := "old" ]} ]}
           "s" "k = new" "s" "k" "" H).
Defined.

Section load_invariants.
Implicit Types (d : gmap string (gmap string string)).
Implicit Types (st : parser_state) (lines : list string).

Lemma entries_well_formed_init : entries_well_formed (∅, EmptyString).
Proof.
  split; [done |]. split.
  - intros sec m. simpl. by rewrite lookup_empty.
  - intros sec k v. simpl. by rewrite lookup2_empty.
Qed.

Lemma entries_well_formed_step st line :
  entries_well_formed st → entries_well_formed (parse_line st line).
Proof.
  destruct st as [d cur]. intros (Hcur & Hne & Hwf). simpl in Hcur.
  destruct (parse_line_full_cases d cur line)
    as [->|[(body & _ & ->)|(a & b & Hkv & ->)]].
  - done.
  - split; [apply trim_trim | done].
  - split; [done |]. simpl. split.
    + intros sec m. unfold store. rewrite lookup_insert.
      case_decide; [|by apply Hne]. intros [= <-]. apply insert_non_empty.
    + intros sec k v. rewrite lookup2_store.
      case_decide as Heq; [|by apply Hwf]. destruct Heq as [-> ->].
      intros [= <-]. destruct Hkv as (_ & _ & _ & _ & Ha).
      destruct (strip_comment_clean (trim b) (trim_trim b)) as (H1 & H2 & H3).
      repeat split; try done; [apply trim_trim | by apply occurs_trim_false].
Qed.

Lemma entries_well_formed_lines st lines :
  entries_well_formed st → entries_well_formed (parse_lines st lines).
Proof.
  revert st; induction lines as [|line lines IH]; intros st Hst; [done |].
  rewrite parse_lines_cons. by apply IH, entries_well_formed_step.
Qed.

Lemma entries_well_formed_load (fs : filesystem) path err c :
  entries_well_formed (data_ (snd (loadFromFile fs path err c)), EmptyString).
Proof.
  rewrite loadFromFile_store. destruct (fs path) as [content|].
  - destruct (entries_well_formed_lines (∅, EmptyString) (getlines content)
                entries_well_formed_init) as (_ & H1 & H2).
    by split.
  - apply entries_well_formed_init.
Qed.

End load_invariants.

(** X7: whatever the file holds, every entry of the store after a load is
    in normal form: section name, key and value are trimmed, the key has no
    ['='], and the value has neither [';'] nor ['#']. *)
Theorem loaded_entries_well_formed
    (fs : filesystem) (path err : string) (c : Config) (section key v : string) :
  stored (snd (loadFromFile fs path err c)) section key v →
  well_formed_entry section key v.
Proof.
  intros Hs%stored_lookup2.
  destruct (entries_well_formed_load fs path err c) as (_ & _ & Hwf).
  by apply Hwf.
Qed.

Lemma loaded_entries_well_formed_witness :
  stored (snd (loadFromFile (one_file "f.ini" duplicates_ini) "f.ini" ""
                 (mkConfig ∅))) "s" "k" "3" ∧
  well_formed_entry "s" "k" "3".
Proof.
  assert (stored (snd (loadFromFile (one_file "f.ini" duplicates_ini) "f.ini" ""
                         (mkConfig ∅))) "s" "k" "3") as H
    by (apply stored_lookup2; reflexivity).
  split; [exact H |].
  exact (loaded_entries_well_formed (one_file "f.ini" duplicates_ini) "f.ini" ""
           (mkConfig ∅) "s" "k" "3" H).
Defined.

(** X8: a section is in the store after a load only together with at least
    one of its keys: a header alone, or one followed only by comments and
    malformed lines, creates nothing. *)
Theorem loaded_sections_nonempty
    (fs : filesystem) (path err : string) (c : Config)
    (section : string) (m : gmap string string) :
  data_ (snd (loadFromFile fs path err c)) !! section = Some m →
  ∃ key v, stored (snd (loadFromFile fs path err c)) section key v.
Proof.
  intros Hm.
  destruct (entries_well_formed_load fs path err c) as (_ & Hne & _).
  destruct (map_choose m (Hne section m Hm)) as (key & v & Hk).
  exists key, v, m. done.
Qed.

Lemma loaded_sections_nonempty_witness :
  data_ (snd (loadFromFile (one_file "f.ini" ("[a]" +:+ nl +:+ "[b]" +:+ nl +:+ "k=v"))
                "f.ini" "" (mkConfig ∅))) !! "b" = Some {[ "k" := "v" ]} ∧
  data_ (snd (loadFromFile (one_file "f.ini" ("[a]" +:+ nl +:+ "[b]" +:+ nl +:+ "k=v"))
                "f.ini" "" (mkConfig ∅))) !! "a" = None ∧
  ∃ key v,
    stored (snd (loadFromFile
                   (one_file "f.ini" ("[a]" +:+ nl +:+ "[b]" +:+ nl +:+ "k=v"))
                   "f.ini" "" (mkConfig ∅))) "b" key v.
Proof.
  split; [reflexivity |]. split; [reflexivity |].
  exact (loaded_sections_nonempty
           (one_file "f.ini" ("[a]" +:+ nl +:+ "[b]" +:+ nl +:+ "k=v"))
           "f.ini" "" (mkConfig ∅) "b" {[ "k" := "v" ]} eq_refl).
Defined.

(** X9: a load never drops a key it has stored: every [key=value] line of
    the file leaves its pair (the section current at the line, the line's
    key) present in the store after the load, with the value of that line
    or of a later one. *)
Theorem key_value_line_present
    (fs : filesystem) (path err : string) (c : Config) (content : string)
    (pre : list string) (line : string) (post : list string) (a b : string) :
  fs path = Some content →
  getlines content = pre ++ line :: post →
  key_value_line (trim line) a b →
  ∃ v, stored (snd (loadFromFile fs path err c))
         (snd (parse_lines (∅, EmptyString) pre)) (trim a) v.
Proof.
  intros Hfs Hl Hkv.
  assert (is_Some (lookup2 (data_ (snd (loadFromFile fs path err c)))
                     (snd (parse_lines (∅, EmptyString) pre)) (trim a)))
    as [v Hv]; [|exists v; by apply stored_lookup2].
  rewrite (loadFromFile_opened _ _ _ _ _ Hfs), Hl. cbn [snd data_].
  rewrite parse_lines_app, parse_lines_cons.
  apply parse_lines_keeps_present.
  destruct (parse_lines (∅, EmptyString) pre) as [d cur].
  rewrite (parse_line_key_value d cur line a b Hkv). cbn [fst snd].
  rewrite lookup2_store_eq. by eexists.
Qed.

Lemma key_value_line_present_witness :
  ∃ v, stored (snd (loadFromFile (one_file "f.ini" duplicates_ini) "f.ini" ""
                      (mkConfig ∅))) "s" "k" v.
Proof.
  refine (key_value_line_present (one_file "f.ini" duplicates_ini) "f.ini" ""
            (mkConfig ∅) duplicates_ini ["k=1"; "[s]"] "k=2"
            ["k = 3 # last"; "[t]"; "k=4"] "k" "2" eq_refl eq_refl _).
  repeat split.
Defined.

(** X10: the store after a successful load is empty exactly when the file
    has no [key=value] line; empty files and files of comments, headers and
    malformed lines load with success and store nothing. *)
Theorem store_empty_iff_no_key_value_line
    (fs : filesystem) (path err : string) (c : Config) (content : string) :
  fs path = Some content →
  fst (fst (loadFromFile fs path err c)) = true ∧
  (data_ (snd (loadFromFile fs path err c)) = ∅ ↔
   ∀ line a b, line ∈ getlines content → ¬ key_value_line (trim line) a b).
Proof.
  intros Hfs. split; [by rewrite (loadFromFile_opened _ _ _ _ _ Hfs) |]. split.
  - intros Hempty line a b Hin Hkv.
    apply list_elem_of_split in Hin as (pre & post & Hl).
    assert (is_Some (lookup2 (data_ (snd (loadFromFile fs path err c)))
                       (snd (parse_lines (∅, EmptyString) pre)) (trim a)))
      as [v Hv].
    { rewrite (loadFromFile_opened _ _ _ _ _ Hfs), Hl. cbn [snd data_].
      rewrite parse_lines_app, parse_lines_cons.
      apply parse_lines_keeps_present.
      destruct (parse_lines (∅, EmptyString) pre) as [d cur].
      rewrite (parse_line_key_value d cur line a b Hkv). cbn [fst snd].
      rewrite lookup2_store_eq. by eexists. }
    by rewrite Hempty, lookup2_empty in Hv.
  - intros Hno. rewrite (loadFromFile_opened _ _ _ _ _ Hfs). cbn [snd data_].
    assert (∀ lines st,
               (∀ line a b, line ∈ lines → ¬ key_value_line (trim line) a b) →
               fst (parse_lines st lines) = fst st) as Hsame.
    { induction lines as [|line lines IH]; intros st Hl; [done |].
      rewrite parse_lines_cons, IH.
      - destruct st as [d cur].
        destruct (parse_line_cases d cur line) as [->|(a & b & Hkv & _)]; [done |].
        destruct (Hl line a b); [left | done].
      - intros l a b Hin. apply Hl. by right. }
    by rewrite Hsame.
Qed.

Lemma store_empty_iff_no_key_value_line_witness :
  one_file "f.ini" ("; c" +:+ nl +:+ "[s]" +:+ nl +:+ "junk") "f.ini"
  = Some ("; c" +:+ nl +:+ "[s]" +:+ nl +:+ "junk") ∧
  fst (fst (loadFromFile (one_file "f.ini" ("; c" +:+ nl +:+ "[s]" +:+ nl +:+ "junk"))
              "f.ini" "" (mkConfig ∅))) = true ∧
  data_ (snd (loadFromFile (one_file "f.ini" ("; c" +:+ nl +:+ "[s]" +:+ nl +:+ "junk"))
                "f.ini" "" (mkConfig ∅))) = ∅.
Proof.
  split; [reflexivity |].
  destruct (store_empty_iff_no_key_value_line
              (one_file "f.ini" ("; c" +:+ nl +:+ "[s]" +:+ nl +:+ "junk"))
              "f.ini" "" (mkConfig ∅)
              ("; c" +:+ nl +:+ "[s]" +:+ nl +:+ "junk") eq_refl) as [Hok Hiff].
  split; [exact Hok |]. apply Hiff.
  intros line a b Hin (_ & Hc & Hh & Hs & _).
  change (line ∈ ["; c"; "[s]"; "junk"]) in Hin.
  apply list_elem_of_In in Hin. simpl in Hin.
  destruct Hin as [<-|[<-|[<-|[]]]]; try discriminate.
  apply (f_equal (occurs "=")) in Hs. rewrite occurs_app in Hs.
  simpl in Hs. rewrite orb_true_r in Hs. discriminate Hs.
Defined.

(** ** Where a stored value comes from *)

Section provenance.
Implicit Types (d : gmap string (gmap string string)).
Implicit Types (lines pre post : list string) (sec key v line : string).

(** A line is a [key=value] line, or it is none and leaves [data_] alone. *)
Lemma key_value_line_or_not line :
  (∃ a b, key_value_line (trim line) a b) ∨
  ((∀ a b, ¬ key_value_line (trim line) a b) ∧
   ∀ d cur, fst (parse_line (d, cur) line) = d).
Proof.
  destruct (Str.empty (trim line)) eqn:He.
  { right. split; [intros a b (H & _); congruence |].
    intros d cur. by rewrite parse_line_blank. }
  destruct (is_comment_line (trim line)) eqn:Hc.
  { right. split; [intros a b (_ & H & _); congruence |].
    intros d cur. by rewrite parse_line_comment. }
  destruct (is_header (trim line)) eqn:Hh.
  { right. split; [intros a b (_ & _ & H & _); congruence |].
    intros d cur. apply is_header_shape in Hh as [body Hb].
    by rewrite (parse_line_header _ _ _ _ Hb). }
  destruct (Str.find (trim line) "=") as [eq|] eqn:Hf.
  - left. destruct (find_split _ _ _ Hf) as [Hs Ho]. by eexists _, _.
  - right. split.
    + intros a b (_ & _ & _ & Hs & Ha).
      rewrite Hs, (find_app _ _ _ Ha) in Hf. discriminate Hf.
    + intros d cur. rewrite parse_line_malformed; [done |].
      unfold malformed. rewrite He, Hc, Hh. simpl.
      by apply find_None_occurs in Hf as ->.
Qed.

Lemma snoc_split (post post1 post2 : list string) (l l' : string) :
  post ++ [l] = post1 ++ l' :: post2 →
  (post2 = [] ∧ post1 = post ∧ l' = l) ∨
  ∃ post2', post2 = post2' ++ [l] ∧ post = post1 ++ l' :: post2'.
Proof.
  destruct post2 as [|y post2 _] using rev_ind.
  - intros [-> ->]%app_inj_tail. by left.
  - rewrite app_comm_cons, app_assoc. intros [-> ->]%app_inj_tail.
    right. by exists post2.
Qed.

(** Every entry is the work of the last line that names its pair. *)
Lemma lookup2_source lines sec key v :
  lookup2 (fst (parse_lines (∅, EmptyString) lines)) sec key = Some v →
  ∃ pre line post a b,
    lines = pre ++ line :: post ∧
    key_value_line (trim line) a b ∧
    snd (parse_lines (∅, EmptyString) pre) = sec ∧
    trim a = key ∧ strip_comment (trim b) = v ∧
    ∀ post1 l post2 a' b',
      post = post1 ++ l :: post2 →
      key_value_line (trim l) a' b' → trim a' = key →
      snd (parse_lines (∅, EmptyString) (pre ++ line :: post1)) ≠ sec.
Proof.
  induction lines as [|l lines IH] using rev_ind.
  { simpl. by rewrite lookup2_empty. }
  rewrite parse_lines_snoc.
  destruct (parse_lines (∅, EmptyString) lines) as [d cur] eqn:Hst.
  assert (lookup2 d sec key = Some v →
          (∀ a' b', key_value_line (trim l) a' b' → trim a' = key → cur ≠ sec) →
          ∃ pre line post a b,
            lines ++ [l] = pre ++ line :: post ∧
            key_value_line (trim line) a b ∧
            snd (parse_lines (∅, EmptyString) pre) = sec ∧
            trim a = key ∧ strip_comment (trim b) = v ∧
            ∀ post1 l0 post2 a' b',
              post = post1 ++ l0 :: post2 →
              key_value_line (trim l0) a' b' → trim a' = key →
              snd (parse_lines (∅, EmptyString) (pre ++ line :: post1)) ≠ sec)
    as Hearlier.
  { intros Hd Hl.
    destruct (IH Hd) as (pre & line & post & a & b & -> & Hkv & Hs & Ha & Hv & Hno).
    exists pre, line, (post ++ [l]), a, b.
    split; [by rewrite <- app_assoc |]. repeat (split; [done |]).
    intros post1 l0 post2 a' b' Hsplit Hkv' Ha'.
    apply snoc_split in Hsplit as [(-> & -> & ->)|(post2' & -> & ->)].
    - rewrite Hst. simpl. by apply (Hl a' b').
    - by apply (Hno post1 l0 post2' a' b'). }
  destruct (key_value_line_or_not l) as [(a & b & Hkv)|[Hnot Hd]].
  - rewrite (parse_line_key_value d cur l a b Hkv). cbn [fst].
    rewrite lookup2_store.
    destruct (decide (sec = cur ∧ key = trim a)) as [[-> ->]|Hne].
    + intros [= <-]. exists lines, l, [], a, b.
      rewrite Hst. repeat (split; [done |]).
      intros post1 l0 post2 a' b' Hsplit. by destruct post1.
    + intros Hlook. apply Hearlier; [done |].
      intros a' b' Hkv' Ha' ->.
      destruct (key_value_line_key_unique _ _ _ _ _ Hkv Hkv') as [-> _].
      by apply Hne.
  - rewrite Hd. intros Hlook. apply Hearlier; [done |].
    intros a' b' Hkv'. by destruct (Hnot a' b').
Qed.

End provenance.

(** X11: nothing is invented: every entry of the store after a load comes
    from a [key=value] line of the file, read in the section current at
    that line, and it is the last line naming that section and key. *)
Theorem stored_value_has_source
    (fs : filesystem) (path err : string) (c : Config) (content : string)
    (section key v : string) :
  fs path = Some content →
  stored (snd (loadFromFile fs path err c)) section key v →
  ∃ pre line post a b,
    getlines content = pre ++ line :: post ∧
    key_value_line (trim line) a b ∧
    snd (parse_lines (∅, EmptyString) pre) = section ∧
    trim a = key ∧ strip_comment (trim b) = v ∧
    ∀ post1 l post2 a' b',
      post = post1 ++ l :: post2 →
      key_value_line (trim l) a' b' → trim a' = key →
      snd (parse_lines (∅, EmptyString) (pre ++ line :: post1)) ≠ section.
Proof.
  intros Hfs Hs%stored_lookup2.
  rewrite (loadFromFile_opened _ _ _ _ _ Hfs) in Hs. cbn [snd data_] in Hs.
  by apply lookup2_source.
Qed.

Lemma stored_value_has_source_witness :
  ∃ pre line post a b,
    getlines duplicates_ini = pre ++ line :: post ∧
    key_value_line (trim line) a b ∧
    snd (parse_lines (∅, EmptyString) pre) = "s" ∧
    trim a = "k" ∧ strip_comment (trim b) = "3" ∧
    ∀ post1 l post2 a' b',
      post = post1 ++ l :: post2 →
      key_value_line (trim l) a' b' → trim a' = "k" →
      snd (parse_lines (∅, EmptyString) (pre ++ line :: post1)) ≠ "s".
Proof.
  refine (stored_value_has_source (one_file "f.ini" duplicates_ini) "f.ini" ""
            (mkConfig ∅) duplicates_ini "s" "k" "3" eq_refl _).
  apply stored_lookup2. reflexivity.
Defined.

(** ** Reading lines *)

Section reading_lines.
Implicit Types (acc l rest content : string) (ls : list string).
Implicit Types (st : parser_state).

Lemma nl_app rest : nl +:+ rest = String "010" rest.
Proof. done. Qed.

Lemma getlines_from_newline acc rest :
  getlines_from acc (String "010" rest) = acc :: getlines_from EmptyString rest.
Proof. done. Qed.

Lemma getlines_from_other acc x rest :
  Ascii.eqb x "010" = false →
  getlines_from acc (String x rest)
  = getlines_from (acc +:+ String x EmptyString) rest.
Proof. intros H. simpl. by rewrite H. Qed.

Lemma app_snoc_cons acc x l :
  (acc +:+ String x EmptyString) +:+ l = acc +:+ String x l.
Proof. by rewrite app_assoc_str. Qed.

(** A line and its newline are read as that line. *)
Lemma getlines_from_line acc l rest :
  occurs "010" l = false →
  getlines_from acc (l +:+ nl +:+ rest)
  = (acc +:+ l) :: getlines_from EmptyString rest.
Proof.
  revert acc; induction l as [|x l IH]; intros acc Hl.
  - rewrite app_empty_r. apply getlines_from_newline.
  - simpl in Hl. apply orb_false_iff in Hl as [Hx Hl].
    rewrite app_cons, getlines_from_other, IH by done.
    by rewrite app_snoc_cons.
Qed.

(** The last line needs no newline, unless it is empty. *)
Lemma getlines_from_last acc l :
  occurs "010" l = false →
  getlines_from acc l
  = if Str.empty (acc +:+ l) then [] else [acc +:+ l].
Proof.
  revert acc; induction l as [|x l IH]; intros acc Hl.
  - by rewrite app_empty_r.
  - simpl in Hl. apply orb_false_iff in Hl as [Hx Hl].
    rewrite getlines_from_other, IH by done. by rewrite app_snoc_cons.
Qed.

Lemma parse_lines_trailing_newline st acc content :
  parse_lines st (getlines_from acc (content +:+ nl))
  = parse_lines st (getlines_from acc content).
Proof.
  revert st acc; induction content as [|x content IH]; intros st acc.
  - change (EmptyString +:+ nl) with (String "010" EmptyString).
    rewrite getlines_from_newline. simpl getlines_from.
    destruct acc as [|y acc]; [|done].
    destruct st as [d cur]. simpl Str.empty. cbn [parse_lines fold_left].
    by rewrite parse_line_blank.
  - rewrite app_cons. destruct (Ascii.eqb x "010") eqn:Hx.
    + apply Ascii.eqb_eq in Hx as ->.
      rewrite !getlines_from_newline, !parse_lines_cons. apply IH.
    + rewrite !getlines_from_other by done. apply IH.
Qed.

End reading_lines.

(** X12: a newline after the last line makes no difference: a file and the
    same file with one more newline at its end load to the same store. *)
Theorem trailing_newline_irrelevant
    (fs1 fs2 : filesystem) (path1 path2 err : string) (c : Config)
    (content : string) :
  fs1 path1 = Some content →
  fs2 path2 = Some (content +:+ nl) →
  snd (loadFromFile fs2 path2 err c) = snd (loadFromFile fs1 path1 err c).
Proof.
  intros H1 H2.
  rewrite (loadFromFile_opened _ _ _ _ _ H1), (loadFromFile_opened _ _ _ _ _ H2).
  cbn [snd]. unfold getlines. by rewrite parse_lines_trailing_newline.
Qed.

Lemma trailing_newline_irrelevant_witness :
  one_file "a.ini" ("[s]" +:+ nl +:+ "k=v") "a.ini" = Some ("[s]" +:+ nl +:+ "k=v") ∧
  one_file "b.ini" (("[s]" +:+ nl +:+ "k=v") +:+ nl) "b.ini"
  = Some (("[s]" +:+ nl +:+ "k=v") +:+ nl) ∧
  snd (loadFromFile (one_file "b.ini" (("[s]" +:+ nl +:+ "k=v") +:+ nl))
         "b.ini" "" (mkConfig ∅))
  = snd (loadFromFile (one_file "a.ini" ("[s]" +:+ nl +:+ "k=v"))
           "a.ini" "" (mkConfig ∅)).
Proof.
  split; [reflexivity |]. split; [reflexivity |].
  exact (trailing_newline_irrelevant
           (one_file "a.ini" ("[s]" +:+ nl +:+ "k=v"))
           (one_file "b.ini" (("[s]" +:+ nl +:+ "k=v") +:+ nl))
           "a.ini" "b.ini" "" (mkConfig ∅) ("[s]" +:+ nl +:+ "k=v")
           eq_refl eq_refl).
Defined.

(** X13: the loop reads back the lines a file was written from: when no
    line holds a newline, the text of the lines, each followed by a
    newline, is read as exactly these lines, and so is the text without the
    final newline unless the last line is empty. *)
Theorem lines_read_back (ls : list string) :
  Forall (λ l, occurs "010" l = false) ls →
  ls ≠ [] →
  getlines (join_lines ls +:+ nl) = ls ∧
  (last ls ≠ Some EmptyString → getlines (join_lines ls) = ls).
Proof.
  intros Hls. induction Hls as [|l ls Hl Hls IH]; [done |]. intros _.
  destruct ls as [|l2 ls].
  - simpl join_lines. unfold getlines. split.
    + rewrite <- (app_empty_r nl), getlines_from_line by done. done.
    + intros Hlast. rewrite getlines_from_last by done. simpl.
      destruct l; [by destruct Hlast | done].
  - destruct IH as [IH1 IH2]; [done |].
    change (join_lines (l :: l2 :: ls))
      with (l +:+ nl +:+ join_lines (l2 :: ls)).
    unfold getlines in *. split.
    + rewrite !app_assoc_str, getlines_from_line by done.
      change (EmptyString +:+ l) with l. by rewrite IH1.
    + intros Hlast. rewrite getlines_from_line by done.
      change (EmptyString +:+ l) with l. rewrite IH2; [done |].
      by rewrite last_cons_cons in Hlast.
Qed.

Lemma lines_read_back_witness :
  Forall (λ l, occurs "010" l = false) ["a=1"; ""; "[s]"] ∧
  ["a=1"; ""; "[s]"] ≠ [] ∧
  getlines (join_lines ["a=1"; ""; "[s]"] +:+ nl) = ["a=1"; ""; "[s]"].
Proof.
  assert (Forall (λ l, occurs "010" l = false) ["a=1"; ""; "[s]"]) as H1
    by (repeat constructor).
  assert (["a=1"; ""; "[s]"] ≠ ([] : list string)) as H2 by discriminate.
  split; [exact H1 |]. split; [exact H2 |].
  exact (proj1 (lines_read_back ["a=1"; ""; "[s]"] H1 H2)).
Defined.

(** ** [err], values and sections at the edges *)

(** X14: [err] is written on failure only. A load that cannot open its
    source sets [err] to the fixed text followed by the path; a later load
    that succeeds returns [true] and leaves that message in [err]. *)
Theorem stale_error_message
    (fs : filesystem) (bad good err content : string) (c : Config) :
  fs bad = None →
  fs good = Some content →
  let '(ok1, err1, c1) := loadFromFile fs bad err c in
  let '(ok2, err2, c2) := loadFromFile fs good err1 c1 in
  ok1 = false ∧ err1 = "Could not open config file: " +:+ bad ∧
  ok2 = true ∧ err2 = err1.
Proof.
  intros Hbad Hgood. rewrite (loadFromFile_not_opened _ _ _ _ Hbad).
  by rewrite (loadFromFile_opened _ _ _ _ _ Hgood).
Qed.

Lemma stale_error_message_witness :
  one_file "f.ini" "a=1" "g.ini" = None ∧
  one_file "f.ini" "a=1" "f.ini" = Some "a=1" ∧
  let '(ok1, err1, c1) :=
    loadFromFile (one_file "f.ini" "a=1") "g.ini" "" (mkConfig ∅) in
  let '(ok2, err2, c2) := loadFromFile (one_file "f.ini" "a=1") "f.ini" err1 c1 in
  ok1 = false ∧ err1 = "Could not open config file: " +:+ "g.ini" ∧
  ok2 = true ∧ err2 = err1.
Proof.
  split; [reflexivity |]. split; [reflexivity |].
  exact (stale_error_message (one_file "f.ini" "a=1") "g.ini" "f.ini" "" "a=1"
           (mkConfig ∅) eq_refl eq_refl).
Defined.

(** X15: a [key=value] line with nothing but whitespace after the ['='],
    or with a comment right after it, stores the empty string: the key is
    present and [get] returns [""], not the default. *)
Theorem empty_value_stored
    (d : gmap string (gmap string string)) (cur line a b dflt : string) :
  key_value_line (trim line) a b →
  all_space b = true ∨ is_comment_line (trim b) = true →
  stored (mkConfig (fst (parse_line (d, cur) line))) cur (trim a) "" ∧
  get (mkConfig (fst (parse_line (d, cur) line))) cur (trim a) dflt = "".
Proof.
  intros Hkv Hb. rewrite (parse_line_key_value d cur line a b Hkv). cbn [fst].
  assert (strip_comment (trim b) = EmptyString) as ->.
  { destruct Hb as [Hb|Hb].
    - by rewrite trim_all_space.
    - unfold strip_comment, is_comment_line in *.
      destruct (trim b) as [|x r]; [done |]. simpl in *. by rewrite Hb. }
  split; [apply stored_lookup2; apply lookup2_store_eq | apply get_store_eq].
Qed.

Lemma empty_value_stored_witness :
  key_value_line (trim "key =  # none") "key " "  # none" ∧
  (all_space "  # none" = true ∨ is_comment_line (trim "  # none") = true) ∧
  get (mkConfig (fst (parse_line (∅, "") "key =  # none"))) "" "key" "dflt" = "".
Proof.
  assert (key_value_line (trim "key =  # none") "key " "  # none") as H1
    by (repeat split).
  assert (all_space "  # none" = true ∨ is_comment_line (trim "  # none") = true)
    as H2 by (right; reflexivity).
  split; [exact H1 |]. split; [exact H2 |].
  exact (proj2 (empty_value_stored ∅ "" "key =  # none" "key " "  # none" "dflt"
                  H1 H2)).
Defined.

(** X16: a value without [';'] and ['#'] is stored as it is written, only
    trimmed: further ['='], brackets and inner whitespace stay. *)
Theorem value_without_comment_kept
    (d : gmap string (gmap string string)) (cur line a b dflt : string) :
  key_value_line (trim line) a b →
  occurs ";" b = false → occurs "#" b = false →
  get (mkConfig (fst (parse_line (d, cur) line))) cur (trim a) dflt = trim b.
Proof.
  intros Hkv H1 H2. rewrite (parse_line_key_value d cur line a b Hkv). cbn [fst].
  rewrite get_store_eq. unfold strip_comment.
  by rewrite occurs_none_before_comment by by apply occurs_trim_false.
Qed.

Lemma value_without_comment_kept_witness :
  key_value_line (trim "url = a=b  [c]") "url " " a=b  [c]" ∧
  occurs ";" " a=b  [c]" = false ∧ occurs "#" " a=b  [c]" = false ∧
  get (mkConfig (fst (parse_line (∅, "") "url = a=b  [c]"))) "" "url" ""
  = "a=b  [c]".
Proof.
  assert (key_value_line (trim "url = a=b  [c]") "url " " a=b  [c]") as H1
    by (repeat split).
  split; [exact H1 |]. split; [reflexivity |]. split; [reflexivity |].
  exact (value_without_comment_kept ∅ "" "url = a=b  [c]" "url " " a=b  [c]" ""
           H1 eq_refl eq_refl).
Defined.

(** X17: a header with nothing but whitespace between its brackets, as
    [[]] or [[  ]], goes back to the top level: the current section becomes
    the empty string, and a [key=value] line after it is found by [get]
    under the section [""]. *)
Theorem blank_header_is_top_level
    (d : gmap string (gmap string string))
    (cur hdr body line a b dflt : string) :
  trim hdr = String "[" (body +:+ String "]" EmptyString) →
  all_space body = true →
  key_value_line (trim line) a b →
  parse_line (d, cur) hdr = (d, EmptyString) ∧
  get (mkConfig (fst (parse_lines (d, cur) [hdr; line]))) "" (trim a) dflt
  = strip_comment (trim b).
Proof.
  intros Hh Hb Hkv.
  pose proof (parse_line_header d cur hdr body Hh) as Hp.
  rewrite (trim_all_space body Hb) in Hp. split; [done |].
  rewrite !parse_lines_cons, Hp, (parse_line_key_value d _ line a b Hkv).
  apply get_store_eq.
Qed.

Lemma blank_header_is_top_level_witness :
  trim " [  ] " = String "[" ("  " +:+ String "]" EmptyString) ∧
  all_space "  " = true ∧
  key_value_line (trim "k=v") "k" "v" ∧
  parse_line (∅, "s") " [  ] " = (∅, EmptyString) ∧
  get (mkConfig (fst (parse_lines (∅, "s") [" [  ] "; "k=v"]))) "" "k" "" = "v".
Proof.
  assert (key_value_line (trim "k=v") "k" "v") as H by (repeat split).
  split; [reflexivity |]. split; [reflexivity |]. split; [exact H |].
  exact (blank_header_is_top_level ∅ "s" " [  ] " "  " "k=v" "k" "v" ""
           eq_refl eq_refl H).
Defined.

(** X18: the order of two neighbouring [key=value] lines with different
    keys does not matter: both orders give the same store and the same
    current section. *)
Theorem distinct_keys_commute
    (st : parser_state) (line1 line2 a1 b1 a2 b2 : string) :
  key_value_line (trim line1) a1 b1 →
  key_value_line (trim line2) a2 b2 →
  trim a1 ≠ trim a2 →
  parse_lines st [line1; line2] = parse_lines st [line2; line1].
Proof.
  intros H1 H2 Hne. destruct st as [d cur]. rewrite !parse_lines_cons.
  rewrite (parse_line_key_value d cur line1 a1 b1 H1).
  rewrite (parse_line_key_value _ cur line2 a2 b2 H2).
  rewrite (parse_line_key_value d cur line2 a2 b2 H2).
  rewrite (parse_line_key_value _ cur line1 a1 b1 H1).
  cbn [parse_lines fold_left]. by rewrite store_comm.
Qed.

Lemma distinct_keys_commute_witness :
  key_value_line (trim "a = 1") "a " " 1" ∧
  key_value_line (trim "b=2 ; two") "b" "2 ; two" ∧
  trim "a " ≠ trim "b" ∧
  parse_lines (∅, "s") ["a = 1"; "b=2 ; two"]
  = parse_lines (∅, "s") ["b=2 ; two"; "a = 1"].
Proof.
  assert (key_value_line (trim "a = 1") "a " " 1") as H1 by (repeat split).
  assert (key_value_line (trim "b=2 ; two") "b" "2 ; two") as H2
    by (repeat split).
  assert (trim "a " ≠ trim "b") as H3 by (vm_compute; discriminate).
  split; [exact H1 |]. split; [exact H2 |]. split; [exact H3 |].
  exact (distinct_keys_commute (∅, "s") "a = 1" "b=2 ; two" "a " " 1" "b"
           "2 ; two" H1 H2 H3).
Defined.

(** X19: reading a line a second time right after the first changes
    nothing, whatever the line is. *)
Theorem repeated_line_no_effect (st : parser_state) (line : string) :
  parse_line (parse_line st line) line = parse_line st line.
Proof.
  destruct st as [d cur].
  destruct (parse_line_full_cases d cur line)
    as [H|[(body & Hb & H)|(a & b & Hkv & H)]]; rewrite H.
  - done.
  - by apply parse_line_header.
  - rewrite (parse_line_key_value _ cur line a b Hkv). by rewrite store_store_eq.
Qed.

(** ** Whole files *)

Lemma parse_line_inert st line : inert line = true → parse_line st line = st.
Proof.
  unfold inert. destruct st as [d cur].
  intros [[H|H]%orb_true_iff|H]%orb_true_iff.
  - by apply parse_line_blank.
  - by apply parse_line_comment.
  - by apply parse_line_malformed.
Qed.

(** X20: only the trimmed lines count: two files whose lines agree one by
    one after trimming (other indentation, trailing blanks, CRLF instead of
    LF) load to the same store. *)
Theorem only_trimmed_lines_matter
    (fs1 fs2 : filesystem) (path1 path2 err : string) (c : Config)
    (content1 content2 : string) :
  fs1 path1 = Some content1 →
  fs2 path2 = Some content2 →
  Forall2 (λ l1 l2, trim l1 = trim l2) (getlines content1) (getlines content2) →
  snd (loadFromFile fs1 path1 err c) = snd (loadFromFile fs2 path2 err c).
Proof.
  intros H1 H2 Hall.
  rewrite (loadFromFile_opened _ _ _ _ _ H1), (loadFromFile_opened _ _ _ _ _ H2).
  cbn [snd]. do 2 f_equal. generalize (∅ : gmap string (gmap string string),
                                       EmptyString).
  induction Hall as [|l1 l2 ls1 ls2 Hl _ IH]; intros st; [done |].
  rewrite !parse_lines_cons, (parse_line_trim_eq st l1 l2 Hl). apply IH.
Qed.

Lemma only_trimmed_lines_matter_witness :
  snd (loadFromFile
         (one_file "unix.ini" ("[s]" +:+ nl +:+ "k = v" +:+ nl))
         "unix.ini" "" (mkConfig ∅))
  = snd (loadFromFile
           (one_file "dos.ini"
              ("[s]" +:+ String "013" nl +:+ "  k = v" +:+ String "013" nl))
           "dos.ini" "" (mkConfig ∅)).
Proof.
  refine (only_trimmed_lines_matter
            (one_file "unix.ini" ("[s]" +:+ nl +:+ "k = v" +:+ nl))
            (one_file "dos.ini"
               ("[s]" +:+ String "013" nl +:+ "  k = v" +:+ String "013" nl))
            "unix.ini" "dos.ini" "" (mkConfig ∅)
            ("[s]" +:+ nl +:+ "k = v" +:+ nl)
            ("[s]" +:+ String "013" nl +:+ "  k = v" +:+ String "013" nl)
            eq_refl eq_refl _).
  repeat constructor.
Defined.

(** X21: blank lines, comment lines and malformed lines can be added to a
    file or taken out of it anywhere: the loop ends in the same store and
    the same current section with and without them. *)
Theorem inert_lines_removable (st : parser_state) (lines : list string) :
  parse_lines st (filter (λ line, inert line = false) lines)
  = parse_lines st lines.
Proof.
  revert st; induction lines as [|line lines IH]; intros st; [done |].
  rewrite filter_cons. destruct (decide (inert line = false)) as [H|H].
  - by rewrite !parse_lines_cons, IH.
  - apply not_false_is_true in H.
    by rewrite parse_lines_cons, parse_line_inert, IH.
Qed.

(** The cases of [tests/test_iniconfig.cpp] that write their own input. *)
Example inline_tests :
  (let c := loaded "" in
   get c "" "key" "default" = "default" ∧
   get c "section" "key" "default" = "default") ∧
  (let c := loaded ("; Comment line 1" +:+ nl +:+ "# Comment line 2" +:+ nl
                    +:+ nl +:+ "; Another comment" +:+ nl) in
   get c "" "key" "default" = "default") ∧
  (let c := loaded ("[]" +:+ nl +:+ "key=value" +:+ nl) in
   get c "" "key" "" = "value") ∧
  (let c := loaded ("path=/usr/local/bin" +:+ nl
                    +:+ "url=https://example.com:8080/path?query=value" +:+ nl
                    +:+ "expression=a+b=c" +:+ nl) in
   get c "" "path" "" = "/usr/local/bin" ∧
   get c "" "url" "" = "https://example.com:8080/path?query=value" ∧
   get c "" "expression" "" = "a+b=c") ∧
  (let c := loaded ("key1=" +:+ nl +:+ "key2=  " +:+ nl) in
   get c "" "key1" "" = "" ∧ get c "" "key2" "" = "") ∧
  (let c := loaded ("equation=x=y+z" +:+ nl
                    +:+ "connection=host=localhost&port=3306" +:+ nl) in
   get c "" "equation" "" = "x=y+z" ∧
   get c "" "connection" "" = "host=localhost&port=3306").
Proof. by vm_compute. Qed.
